(** * LoadBalancer_go: the backend pool of [loadbalancer.go]

    A shallow embedding of the round-robin reverse proxy in
    [src/loadbalancer.go] (the second program of that file: [Backend],
    [LoadBalancer], [NewLoadBalancer], [getNextBackend], [ServeHTTP],
    [healthCheck], [startHealthChecks], [getStats] and [main]), followed by
    the properties of the pool that the specification states.

    Conventions of the embedding.
    - Go's [int] is the 64-bit signed integer of the usual targets: a [Z]
      with the wrap-around of [+] written out ([wrap]), [%] as the truncated
      remainder that panics on a zero divisor, and slice indexing that
      panics outside [0, len).
    - [lb.backends] is a slice of pointers to distinct heap cells, each
      allocated once by [NewLoadBalancer].  The slice itself is the store:
      a [*Backend] is the position of its cell in the slice ([BackendRef]),
      and a write through the pointer is an [alter] at that position.
    - [lb.mux] and [b.mux] make every method body one critical section, so a
      method is a function from the state before it to the state after it.
    - What the program does to the outside (log lines, probes, responses,
      forwarding, timers, goroutines) is recorded as a list of [Event]s; what
      the outside answers (URL parsing, probe outcomes, clock readings) is a
      parameter of the function that asks. *)

From Stdlib Require Import ZArith Lia Ascii String.
From stdpp Require Import base list strings.

Local Open Scope Z_scope.

(** ** Go integers and run-time panics *)

Module GoInt.

Definition MaxInt : Z := 2 ^ 63 - 1.
Definition MinInt : Z := - 2 ^ 63.

(** Two's-complement wrap-around of a mathematical integer into [int]. *)
Definition wrap (z : Z) : Z := (z + 2 ^ 63) mod 2 ^ 64 - 2 ^ 63.

Definition add (a b : Z) : Z := wrap (a + b).

End GoInt.

Inductive RuntimePanic : Set :=
| DivideByZero
| IndexOutOfRange.

Inductive result (A : Type) : Type :=
| Ok (a : A)
| Panic (p : RuntimePanic).
Arguments Ok {A} a.
Arguments Panic {A} p.

(** Sequencing: a panic ends the function that raised it.  With these
    instances [x ← r; k] reads "run [r], name its value [x], go on with
    [k]". *)
#[global] Instance result_ret : MRet result := fun _ a => Ok a.
#[global] Instance result_bind : MBind result := fun _ _ k r =>
  match r with
  | Ok a => k a
  | Panic p => Panic p
  end.

(** [a % b] on [int]: the remainder has the sign of [a]; a zero divisor
    panics. *)
Definition rem (a b : Z) : result Z :=
  if b =? 0 then Panic DivideByZero else Ok (Z.rem a b).

(** [s[i]] on a slice. *)
Definition index {A} (s : list A) (i : Z) : result A :=
  if i <? 0 then Panic IndexOutOfRange
  else match s !! Z.to_nat i with
       | Some a => Ok a
       | None => Panic IndexOutOfRange
       end.

(** [len(s)] as an [int]. *)
Definition len {A} (s : list A) : Z := Z.of_nat (length s).

(** A [for] statement whose body either falls through to the next value of
    the loop variable ([Ok None]), returns from the enclosing function
    ([Ok (Some r)]) or panics. *)
Fixpoint for_each {I R} (body : I -> result (option R)) (ivs : list I)
  : result (option R) :=
  match ivs with
  | [] => Ok None
  | i :: rest =>
      match body i with
      | Ok None => for_each body rest
      | Ok (Some r) => Ok (Some r)
      | Panic p => Panic p
      end
  end.

(** The values [0, 1, ..., n-1] taken by [i] in
    [for i := 0; i < n; i++]. *)
Definition upto (n : nat) : list Z := Z.of_nat <$> seq 0 n.

(** ** Backends *)

(** A [*url.URL]: the program never looks inside one, so it is known here by
    the text it was parsed from. *)
Record url_URL : Set := { raw : string }.

(** A reverse proxy is known by the target it was built for
    ([httputil.NewSingleHostReverseProxy(parsedURL)]). *)
Record ReverseProxy : Set := { target : url_URL }.

Record Backend : Set := {
  URL : string;
  Proxy : ReverseProxy;
  Alive : bool
}.

Definition SetAlive (alive : bool) (b : Backend) : Backend :=
  {| URL := URL b; Proxy := Proxy b; Alive := alive |}.

Definition IsAlive (b : Backend) : bool := Alive b.

(** A [*Backend] held in [lb.backends]: the position of its cell. *)
Abbreviation BackendRef := nat (only parsing).

Record LoadBalancer : Set := {
  backends : list Backend;
  current : Z
}.

Definition set_current (c : Z) (lb : LoadBalancer) : LoadBalancer :=
  {| backends := backends lb; current := c |}.

(** [lb.backends[k].SetAlive(alive)].  A position outside the slice names no
    backend of the pool, and nothing is written. *)
Definition setAliveAt (k : BackendRef) (alive : bool) (lb : LoadBalancer)
  : LoadBalancer :=
  {| backends := alter (SetAlive alive) k (backends lb);
     current := current lb |}.

(** ** Selection *)

(** The body of the loop of [getNextBackend] at loop variable [i]. *)
Definition scanStep (lb : LoadBalancer) (i : Z)
  : result (option (BackendRef * LoadBalancer)) :=
  idx ← rem (GoInt.add (current lb) i) (len (backends lb));
  b ← index (backends lb) idx;
  if IsAlive b then
    next ← rem (GoInt.add idx 1) (len (backends lb));
    Ok (Some (Z.to_nat idx, set_current next lb))
  else Ok None.

(** [getNextBackend]: the returned pointer ([None] for [nil]) and the pool
    after the call. *)
Definition getNextBackend (lb : LoadBalancer)
  : result (option BackendRef * LoadBalancer) :=
  r ← for_each (scanStep lb) (upto (length (backends lb)));
  match r with
  | Some (k, lb') => Ok (Some k, lb')
  | None => Ok (None, lb)
  end.

(** *** Sequences of pool operations

    The pool is written by two operations only: [getNextBackend] moves the
    cursor and [SetAlive] (called by the health checker) writes one flag.  A
    panic inside [getNextBackend] happens before its only assignment, and the
    deferred [Unlock] still runs, so the pool is left as it was. *)
Inductive Op : Set :=
| Select
| MarkAlive (k : BackendRef) (alive : bool).

(** What one [getNextBackend] call of a sequence showed: the value it
    returned (or the panic) and the cursor after it. *)
Record Observation : Set := {
  returned : result (option BackendRef);
  cursorAfter : Z
}.

Definition observe (lb : LoadBalancer) : Observation * LoadBalancer :=
  match getNextBackend lb with
  | Ok (r, lb') => ({| returned := Ok r; cursorAfter := current lb' |}, lb')
  | Panic p => ({| returned := Panic p; cursorAfter := current lb |}, lb)
  end.

Fixpoint run (ops : list Op) (lb : LoadBalancer)
  : list Observation * LoadBalancer :=
  match ops with
  | [] => ([], lb)
  | Select :: rest =>
      let '(o, lb') := observe lb in
      let '(os, lb'') := run rest lb' in
      (o :: os, lb'')
  | MarkAlive k alive :: rest => run rest (setAliveAt k alive lb)
  end.

(** [n] consecutive [getNextBackend] calls. *)
Definition selectMany (n : nat) (lb : LoadBalancer)
  : list Observation * LoadBalancer :=
  run (replicate n Select) lb.

(** ** What the program does to the outside *)

(** A [time.Duration]: nanoseconds. *)
Definition Duration : Set := Z.
Definition Second : Duration := 1000000000.

Definition StatusOK : Z := 200.
Definition StatusServiceUnavailable : Z := 503.

(** The part of an [*http.Request] the balancer reads ([r.Method],
    [r.URL.Path]); the rest travels with it to the proxy untouched. *)
Record Request : Set := {
  Method : string;
  Path : string;
  payload : string
}.

(** One constructor per format string of the source. *)
Inductive LogLine : Set :=
| ErrParseURL (backendURL err : string)
| InfoAddedBackend (backendURL : string)
| ErrAllBackendsDown (method path : string)
| InfoForwarding (backendURL method path : string)
| InfoCompleted (duration : Duration) (backendURL : string)
| InfoRunningChecks
| WarnCheckFailed (backendURL err : string)
| WarnBadStatus (backendURL : string) (status : Z)
| InfoRecovered (backendURL : string)
| InfoCheckComplete (aliveCount total : Z)
| InfoStartingChecks (interval : Duration)
| StatsLine (total alive down : Z)
| WarnNoEnvFile
| InfoStarting
| InfoListening (port : string)
| InfoConfigured (n : Z)
| FatalNoBackendURLs
| FatalNoPort
| FatalNoValidBackends
| FatalServerFailed (err : string).

(** The goroutines [main] leaves running. *)
Inductive Task : Set :=
| HealthLoop (interval : Duration)
      (* for range ticker.C { lb.healthCheck() }, on the ticker that
         startHealthChecks made with this interval *)
| StatsLoop (period : Duration)
      (* its own ticker; lb.getStats() on every tick *).

Inductive Event : Set :=
| Printf (l : LogLine)                  (* log.Printf, log.Println *)
| Fatal (l : LogLine)                   (* log.Fatal: the line, then exit 1 *)
| HttpGet (url : string)                (* http.Get(url) *)
| BodyClose                             (* resp.Body.Close() *)
| HttpError (body : string) (code : Z)  (* http.Error(w, body, code) *)
| ProxyServeHTTP (k : BackendRef) (p : ReverseProxy) (r : Request)
                                        (* backend.Proxy.ServeHTTP(w, r) *)
| NewTicker (d : Duration)              (* time.NewTicker(d) *)
| Go (t : Task)                         (* go func() { ... }() *)
| ListenAndServe (addr : string).       (* http.ListenAndServe(addr, lb) *)

(** ** Construction *)

Section Construction.

(** [url.Parse]: the parsed URL, or the error. *)
Variable url_Parse : string -> url_URL + string.

(** One iteration of the loop of [NewLoadBalancer]. *)
Definition addBackend (acc : list Event * list Backend) (backendURL : string)
  : list Event * list Backend :=
  let '(log, bs) := acc in
  match url_Parse backendURL with
  | inr err => (log ++ [Printf (ErrParseURL backendURL err)], bs)
  | inl parsedURL =>
      let proxy := {| target := parsedURL |} in
      let backend := {| URL := backendURL; Proxy := proxy; Alive := true |} in
      (log ++ [Printf (InfoAddedBackend backendURL)], bs ++ [backend])
  end.

Definition NewLoadBalancer (backendURLs : list string)
  : list Event * LoadBalancer :=
  let '(log, bs) := foldl addBackend ([], []) backendURLs in
  (log, {| backends := bs; current := 0 |}).

End Construction.

(** ** Serving a request *)

(** [selectedBackend.URL] and the like.  A reference that points outside the
    slice has no counterpart in the program, where pointers come from
    [getNextBackend] only; it reads as an index panic. *)
Definition deref (lb : LoadBalancer) (k : BackendRef) : result Backend :=
  match backends lb !! k with
  | Some b => Ok b
  | None => Panic IndexOutOfRange
  end.

(** [ServeHTTP]; [elapsed] is what [time.Since(start)] reads once the proxy
    has returned. *)
Definition ServeHTTP (elapsed : Duration) (r : Request) (lb : LoadBalancer)
  : result (list Event * LoadBalancer) :=
  '(selectedBackend, lb') ← getNextBackend lb;
  match selectedBackend with
  | None =>
      Ok ([Printf (ErrAllBackendsDown (Method r) (Path r));
           HttpError "Service unavailable - all backends are down"
                     StatusServiceUnavailable],
          lb')
  | Some k =>
      b ← deref lb' k;
      Ok ([Printf (InfoForwarding (URL b) (Method r) (Path r));
           ProxyServeHTTP k (Proxy b) r;
           Printf (InfoCompleted elapsed (URL b))],
          lb')
  end.

(** ** Health checks *)

(** What [http.Get] returned: an error (with the response the library may
    still hand back), or a response with its status code. *)
Inductive GetResult : Set :=
| GetFailed (err : string) (respNonNil : bool)
| GetResponse (StatusCode : Z).

(** The body of the loop of [healthCheck] for one backend, given what the
    probe returned: the events, the backend afterwards and whether
    [aliveCount] is incremented. *)
Definition checkBackend (g : GetResult) (backend : Backend)
  : list Event * Backend * bool :=
  match g with
  | GetFailed err respNonNil =>
      ([HttpGet (URL backend); Printf (WarnCheckFailed (URL backend) err)]
         ++ (if respNonNil then [BodyClose] else []),
       SetAlive false backend, false)
  | GetResponse status =>
      if negb (status =? StatusOK) then
        ([HttpGet (URL backend); Printf (WarnBadStatus (URL backend) status);
          BodyClose],
         SetAlive false backend, false)
      else
        ([HttpGet (URL backend)]
           ++ (if negb (IsAlive backend)
               then [Printf (InfoRecovered (URL backend))] else [])
           ++ [BodyClose],
         SetAlive true backend, true)
  end.

(** The loop of [healthCheck] from position [i] on; [http_Get i url] is the
    network's answer to the probe of the backend at position [i]. *)
Fixpoint checkFrom (http_Get : nat -> string -> GetResult) (i : nat)
  (bs : list Backend) (aliveCount : Z) : list Event * list Backend * Z :=
  match bs with
  | [] => ([], [], aliveCount)
  | backend :: rest =>
      let '(ev, backend', up) := checkBackend (http_Get i (URL backend)) backend in
      let '(evs, rest', n) :=
        checkFrom http_Get (S i) rest
          (if up then GoInt.add aliveCount 1 else aliveCount) in
      (ev ++ evs, backend' :: rest', n)
  end.

Definition healthCheck (http_Get : nat -> string -> GetResult)
  (lb : LoadBalancer) : list Event * LoadBalancer :=
  let '(evs, bs, aliveCount) := checkFrom http_Get 0 (backends lb) 0 in
  ([Printf InfoRunningChecks] ++ evs
     ++ [Printf (InfoCheckComplete aliveCount (len (backends lb)))],
   {| backends := bs; current := current lb |}).

(** [startHealthChecks]: a log line, a ticker, a goroutine.  The pool is not
    touched. *)
Definition startHealthChecks (interval : Duration) (lb : LoadBalancer)
  : list Event * LoadBalancer :=
  ([Printf (InfoStartingChecks interval); NewTicker interval;
    Go (HealthLoop interval)],
   lb).

Definition getStats (lb : LoadBalancer) : list Event :=
  let aliveCount :=
    foldl (fun n backend => if IsAlive backend then GoInt.add n 1 else n)
          0 (backends lb) in
  [Printf (StatsLine (len (backends lb)) aliveCount
                     (GoInt.wrap (len (backends lb) - aliveCount)))].

(** What a background goroutine does when its ticker fires. *)
Definition onTick (t : Task) (http_Get : nat -> string -> GetResult)
  (lb : LoadBalancer) : list Event * LoadBalancer :=
  match t with
  | HealthLoop _ => healthCheck http_Get lb
  | StatsLoop _ => (getStats lb, lb)
  end.

(** *** Tickers

    The channel of a ticker made by [time.NewTicker(d)] delivers its first
    tick [d] after the ticker was made and one more every [d] after that.
    Time is counted in nanoseconds from the instant the ticker was made.
    ([NewTicker] wants [d > 0], and a receiver that is still busy when a
    tick is due loses it: a loop body is taken to end before the next tick
    of its ticker.) *)
Definition ticksAt (d : Duration) (elapsed : Duration) : bool :=
  (0 <? elapsed) && (elapsed mod d =? 0).

Definition tickerOf (t : Task) : Duration :=
  match t with
  | HealthLoop interval => interval
  | StatsLoop period => period
  end.

(** What a background goroutine has done [n] nanoseconds after its ticker
    was made.  At an instant without a tick it is blocked on the channel;
    at an instant with a tick it runs the body of its loop once, on the pool
    as it then is.  The history lists the instants at which the body ran,
    with what it did; [http_Get now] answers the probes sent at [now]. *)
Fixpoint history (t : Task)
  (http_Get : Duration -> nat -> string -> GetResult) (n : nat)
  (lb : LoadBalancer) : list (Duration * list Event) * LoadBalancer :=
  match n with
  | O => ([], lb)
  | S m =>
      let '(past, lb) := history t http_Get m lb in
      let now := Z.of_nat (S m) in
      if ticksAt (tickerOf t) now then
        let '(evs, lb) := onTick t (http_Get now) lb in
        (past ++ [(now, evs)], lb)
      else (past, lb)
  end.

(** ** Start-up *)

(** [strings.Split(s, ",")]. *)
Fixpoint splitComma (s : string) : list string :=
  match s with
  | EmptyString => [EmptyString]
  | String c rest =>
      if Ascii.eqb c ","%char then EmptyString :: splitComma rest
      else match splitComma rest with
           | field :: fields => String c field :: fields
           | [] => [String c EmptyString]
           end
  end.

(** The process environment once [godotenv.Load] has run. *)
Record Environment : Set := {
  dotenvLoaded : bool;
  PORT : string;
  Backend_URLs : string
}.

(** What the call of [http.ListenAndServe] does: it keeps serving and does
    not return, or it returns an [error] (which by the contract of the
    library is never [nil]; [main] tests it all the same). *)
Inductive ListenResult : Set :=
| KeepsServing
| Returns (err : option string).

(** How [main] ends up: the process has exited through [log.Fatal] or
    [log.Fatalf]; or it is blocked in [http.ListenAndServe], serving with the
    pool it built; or [main] has returned. *)
Inductive Startup : Set :=
| Exited (trace : list Event)
| Serving (trace : list Event) (lb : LoadBalancer)
| Returned (trace : list Event).

Section Main.

Variable url_Parse : string -> url_URL + string.

(** [http_Get] answers the probes of the first health check,
    [http_ListenAndServe] says what becomes of the listener. *)
Definition main (env : Environment) (http_Get : nat -> string -> GetResult)
  (http_ListenAndServe : string -> ListenResult) : Startup :=
  let t0 := if dotenvLoaded env then [] else [Printf WarnNoEnvFile] in
  let Port := PORT env in
  let backendsEnv := Backend_URLs env in
  if String.eqb backendsEnv "" then Exited (t0 ++ [Fatal FatalNoBackendURLs])
  else if String.eqb Port "" then Exited (t0 ++ [Fatal FatalNoPort])
  else
    let backendURLs := splitComma backendsEnv in
    let '(t1, lb) := NewLoadBalancer url_Parse backendURLs in
    if len (backends lb) =? 0 then
      Exited (t0 ++ [Printf InfoStarting] ++ t1 ++ [Fatal FatalNoValidBackends])
    else
      let '(t2, lb) := healthCheck http_Get lb in
      let '(t3, lb) := startHealthChecks (10 * Second) lb in
      let trace :=
        t0 ++ [Printf InfoStarting] ++ t1 ++ t2 ++ t3
           ++ [Go (StatsLoop (30 * Second));
               Printf (InfoListening Port);
               Printf (InfoConfigured (len (backends lb)));
               ListenAndServe (":" ++ Port)] in
      match http_ListenAndServe (":" ++ Port)%string with
      | KeepsServing => Serving trace lb
      | Returns (Some err) => Exited (trace ++ [Fatal (FatalServerFailed err)])
      | Returns None => Returned trace
      end.

End Main.

(** ** Vocabulary of the properties *)

(** The cursor invariant of the data model. *)
Definition cursorInRange (lb : LoadBalancer) : Prop :=
  0 <= current lb < len (backends lb).

(** A slice of pointers holds 8-byte words inside an address space of
    [2^63] bytes, so it has at most [2^60] elements. *)
Definition maxBackends : Z := 2 ^ 60.

Definition fitsMemory (lb : LoadBalancer) : Prop :=
  len (backends lb) <= maxBackends.

Definition allAlive (lb : LoadBalancer) : Prop :=
  Forall (fun b => Alive b = true) (backends lb).

Definition noneAlive (lb : LoadBalancer) : Prop :=
  Forall (fun b => Alive b = false) (backends lb).

(** The positions met when walking [n] steps round a ring of [n] places
    from place [c]. *)
Definition cyclicOrder (c n : nat) : list nat :=
  (fun i => (c + i) mod n)%nat <$> seq 0 n.

(** A call that returned the backend at [k] and left the cursor just after
    it. *)
Definition served (n : nat) (k : BackendRef) : Observation :=
  {| returned := Ok (Some k); cursorAfter := Z.of_nat ((k + 1) mod n) |}.

(** A call that returned [nil] and left the cursor at [c]. *)
Definition refused (c : Z) : Observation :=
  {| returned := Ok None; cursorAfter := c |}.

(** An operation that could bring backend [k] back into rotation. *)
Definition revives (k : BackendRef) (op : Op) : Prop :=
  op = MarkAlive k true.

(** A small pool for the concrete instances below. *)
Definition backendAt (u : string) (alive : bool) : Backend :=
  {| URL := u; Proxy := {| target := {| raw := u |} |}; Alive := alive |}.

Definition pool3 (a b c : bool) (cur : Z) : LoadBalancer :=
  {| backends := [backendAt "http://localhost:8081" a;
                  backendAt "http://localhost:8082" b;
                  backendAt "http://localhost:8083" c];
     current := cur |}.

(** [url.Parse] accepted the text. *)
Definition parses (url_Parse : string -> url_URL + string) (u : string)
  : bool :=
  match url_Parse u with
  | inl _ => true
  | inr _ => false
  end.

(** The start-up policy "one address that does not parse stops the
    process". *)
Definition fatalOnUnparsable (url_Parse : string -> url_URL + string)
  (env : Environment) (http_Get : nat -> string -> GetResult)
  (http_ListenAndServe : string -> ListenResult) : Prop :=
  (exists u err, u ∈ splitComma (Backend_URLs env) /\ url_Parse u = inr err) ->
  exists trace, main url_Parse env http_Get http_ListenAndServe = Exited trace.

(** A text between double quotes, as [%q] prints a text in which nothing
    needs escaping. *)
Definition quoted (s : string) : string :=
  String "034"%char (s ++ String "034"%char EmptyString)%string.

(** A parser for the concrete instances.  Like [net/url] it refuses a text
    that begins with a colon (there is no scheme before it), with the error
    the library reports for it; everything else it accepts. *)
Definition parseSample (s : string) : url_URL + string :=
  match s with
  | String ":" _ =>
      inr ("parse " ++ quoted s ++ ": missing protocol scheme")%string
  | _ => inl {| raw := s |}
  end.

(** A listener that starts and keeps serving, and one that cannot bind. *)
Definition listens : string -> ListenResult := fun _ => KeepsServing.

Definition bindFails : string -> ListenResult :=
  fun addr =>
    Returns (Some ("listen tcp " ++ addr
                     ++ ": bind: address already in use")%string).

Definition envSample : Environment :=
  {| dotenvLoaded := true;
     PORT := "8080";
     Backend_URLs := "http://localhost:8081,:8082" |}.

(** A network where every probe is answered with 200, and one where every
    connection is refused. *)
Definition allUp : nat -> string -> GetResult :=
  fun _ _ => GetResponse StatusOK.

Definition allDown : nat -> string -> GetResult :=
  fun _ _ => GetFailed "connection refused" false.

(** The probe succeeded, as [healthCheck] judges it: no error, and status
    [http.StatusOK]. *)
Definition probeSucceeded (g : GetResult) : bool :=
  match g with
  | GetFailed _ _ => false
  | GetResponse status => status =? StatusOK
  end.

(** How many events of a trace satisfy [p]. *)
Definition count (p : Event -> bool) (evs : list Event) : nat :=
  length (List.filter p evs).

Definition isRecovery (e : Event) : bool :=
  match e with
  | Printf (InfoRecovered _) => true
  | _ => false
  end.

(** Every health-check cycle opens with this line. *)
Definition isCheckStart (e : Event) : bool :=
  match e with
  | Printf InfoRunningChecks => true
  | _ => false
  end.

(** The process starts a timer, a goroutine or the listener. *)
Definition isLaunch (e : Event) : bool :=
  match e with
  | NewTicker _ | Go _ | ListenAndServe _ => true
  | _ => false
  end.

(** Neither a cycle opening nor a launch. *)
Definition quiet (e : Event) : Prop :=
  isCheckStart e = false /\ isLaunch e = false.

(** The backends a trace forwards to, and the responses the balancer writes
    itself. *)
Definition forwardedTo (evs : list Event) : list (BackendRef * Request) :=
  omap (fun e => match e with
                 | ProxyServeHTTP k _ r => Some (k, r)
                 | _ => None
                 end) evs.

Definition answered (evs : list Event) : list (string * Z) :=
  omap (fun e => match e with
                 | HttpError body code => Some (body, code)
                 | _ => None
                 end) evs.

(** [startHealthChecks] itself runs a health-check cycle. *)
Definition startRunsCheck (interval : Duration)
  (http_Get : nat -> string -> GetResult) (lb : LoadBalancer) : Prop :=
  count isCheckStart (startHealthChecks interval lb).1 = 1%nat /\
  (startHealthChecks interval lb).2 = (healthCheck http_Get lb).2.

(** A network that refuses the first backend, answers 200 for the second and
    500 for the others. *)
Definition mixedProbes : nat -> string -> GetResult :=
  fun i _ =>
    match i with
    | O => GetFailed "connection refused" false
    | S O => GetResponse 200
    | _ => GetResponse 500
    end.

Definition requestSample : Request :=
  {| Method := "GET"; Path := "/index.html"; payload := "" |}.

(** ** Vocabulary of the scan *)

(** The flag of the backend at position [k]; a position outside the slice
    holds no live backend. *)
Definition aliveAt (lb : LoadBalancer) (k : nat) : bool :=
  match backends lb !! k with
  | Some b => Alive b
  | None => false
  end.

(** The positions in the order a call scans them: once round the slice
    from the cursor. *)
Definition scanOrder (lb : LoadBalancer) : list nat :=
  cyclicOrder (Z.to_nat (current lb)) (length (backends lb)).

(** The live backends in the order a call would meet them. *)
Definition liveOrder (lb : LoadBalancer) : list nat :=
  List.filter (aliveAt lb) (scanOrder lb).

(** The pool once the backend at [k] has been returned. *)
Definition afterServing (k : nat) (lb : LoadBalancer) : LoadBalancer :=
  set_current (Z.of_nat ((k + 1) mod length (backends lb))) lb.

(** What never changes about a backend: its address and its proxy. *)
Definition members (lb : LoadBalancer) : list (string * ReverseProxy) :=
  (fun b => (URL b, Proxy b)) <$> backends lb.

(** How many backends have their flag set. *)
Definition aliveTotal (lb : LoadBalancer) : nat :=
  length (List.filter Alive (backends lb)).

(** The addresses a trace probes, in order. *)
Definition probed (evs : list Event) : list string :=
  omap (fun e => match e with
                 | HttpGet u => Some u
                 | _ => None
                 end) evs.

(** The text of the 503 answer. *)
Definition outageBody : string :=
  "Service unavailable - all backends are down".

(** Requests served one after the other, each with the time its proxy
    took. *)
Fixpoint serveAll (rs : list (Duration * Request)) (lb : LoadBalancer)
  : result (list Event * LoadBalancer) :=
  match rs with
  | [] => Ok ([], lb)
  | (elapsed, r) :: rest =>
      '(evs, lb') ← ServeHTTP elapsed r lb;
      '(evs', lb'') ← serveAll rest lb';
      Ok (evs ++ evs', lb'')
  end.

(** The proxies a trace hands requests to, in order. *)
Definition proxied (evs : list Event) : list (ReverseProxy * Request) :=
  omap (fun e => match e with
                 | ProxyServeHTTP _ p r => Some (p, r)
                 | _ => None
                 end) evs.

(** ** The fixed three-backend balancer

    The first program of [loadbalancer.go]: three proxies built at start-up
    and one counter; no liveness, no configuration. *)

Module Fixed.

Inductive Effect : Set :=
| Println (line : string)                     (* fmt.Println(line) *)
| Serve (proxy : ReverseProxy) (r : Request)  (* proxy.ServeHTTP(w, r) *)
| Listen (addr : string).        (* http.ListenAndServe(addr, nil) *)

Definition proxy1 : ReverseProxy :=
  {| target := {| raw := "http://localhost:8081" |} |}.
Definition proxy2 : ReverseProxy :=
  {| target := {| raw := "http://localhost:8082" |} |}.
Definition proxy3 : ReverseProxy :=
  {| target := {| raw := "http://localhost:8083" |} |}.

(** The function registered on ["/"].  It holds [mux] from its first
    statement to its last, the call of the proxy included, so two requests
    never overlap; the divisor of [%] is the constant 3. *)
Definition handler (r : Request) (current : Z) : list Effect * Z :=
  ((if current =? 0 then
      [Println "Forwarding to backend on port 8081"; Serve proxy1 r]
    else if current =? 1 then
      [Println "Forwarding to backend on port 8082"; Serve proxy2 r]
    else
      [Println "Forwarding to backend on port 8083"; Serve proxy3 r]),
   Z.rem (GoInt.add current 1) 3).

(** The requests of a run, in the order the mutex admits them. *)
Fixpoint serve (rs : list Request) (current : Z) : list Effect * Z :=
  match rs with
  | [] => ([], current)
  | r :: rest =>
      let '(evs, current') := handler r current in
      let '(evs', current'') := serve rest current' in
      (evs ++ evs', current'')
  end.

(** [main] up to the point where it blocks in the listener: what it did,
    and the counter it starts with. *)
Definition main : list Effect * Z :=
  ([Println "Load balancer starting on port 8080..."; Listen ":8080"], 0).

Definition forwarded (evs : list Effect) : list (ReverseProxy * Request) :=
  omap (fun e => match e with
                 | Serve p r => Some (p, r)
                 | _ => None
                 end) evs.

Definition proxies : list ReverseProxy := [proxy1; proxy2; proxy3].

End Fixed.

(** ** Vocabulary of start-up and of the periodic checks *)

(** The statuses HTTP calls successful: 200 to 299. *)
Definition successStatus (status : Z) : bool :=
  (200 <=? status) && (status <? 300).

(** The policy "a response with a success status marks the backend
    alive". *)
Definition successMarksAlive (status : Z) (b : Backend) : Prop :=
  successStatus status = true ->
  Alive (checkBackend (GetResponse status) b).1.2 = true.

(** What [main] has done when it calls [http.ListenAndServe]. *)
Definition listenTrace (url_Parse : string -> url_URL + string)
  (env : Environment) (http_Get : nat -> string -> GetResult) : list Event :=
  let built := NewLoadBalancer url_Parse (splitComma (Backend_URLs env)) in
  let checked := healthCheck http_Get built.2 in
  (if dotenvLoaded env then [] else [Printf WarnNoEnvFile])
    ++ [Printf InfoStarting] ++ built.1 ++ checked.1
    ++ (startHealthChecks (10 * Second) checked.2).1
    ++ [Go (StatsLoop (30 * Second));
        Printf (InfoListening (PORT env));
        Printf (InfoConfigured (len (backends checked.2)));
        ListenAndServe (":" ++ PORT env)].

(** The pool [main] listens with: the fresh pool after the first health
    check. *)
Definition listenPool (url_Parse : string -> url_URL + string)
  (env : Environment) (http_Get : nat -> string -> GetResult)
  : LoadBalancer :=
  (healthCheck http_Get
     (NewLoadBalancer url_Parse (splitComma (Backend_URLs env))).2).2.

(** How [main] ends once it has called [http.ListenAndServe]. *)
Definition afterListen (r : ListenResult) (trace : list Event)
  (lb : LoadBalancer) : Startup :=
  match r with
  | KeepsServing => Serving trace lb
  | Returns (Some err) => Exited (trace ++ [Fatal (FatalServerFailed err)])
  | Returns None => Returned trace
  end.

Definition traceOf (s : Startup) : list Event :=
  match s with
  | Exited trace | Serving trace _ | Returned trace => trace
  end.

(** In [trace], which ends in the listen call, exactly one health-check
    cycle has run, the one on the fresh pool; it ran before any timer,
    goroutine or listener was started, and [startHealthChecks] came right
    after it. *)
Definition checkedBeforeLaunch (url_Parse : string -> url_URL + string)
  (env : Environment) (http_Get : nat -> string -> GetResult)
  (trace : list Event) : Prop :=
  let lb0 := (NewLoadBalancer url_Parse (splitComma (Backend_URLs env))).2 in
  let check := healthCheck http_Get lb0 in
  exists pre post,
    trace = pre ++ check.1 ++ (startHealthChecks (10 * Second) check.2).1
                ++ post ++ [ListenAndServe (":" ++ PORT env)]
    /\ count isCheckStart trace = 1%nat
    /\ count isCheckStart pre = 0%nat
    /\ count isLaunch (pre ++ check.1) = 0%nat.

(** [q] health-check cycles, one at each of the instants [d], [2d], ...,
    [q d], each on the pool the one before left. *)
Fixpoint cycles (d : Duration)
  (http_Get : Duration -> nat -> string -> GetResult) (q : nat)
  (lb : LoadBalancer) : list (Duration * list Event) * LoadBalancer :=
  match q with
  | O => ([], lb)
  | S q' =>
      let '(past, lb) := cycles d http_Get q' lb in
      let now := Z.of_nat (S q') * d in
      let '(evs, lb) := healthCheck (http_Get now) lb in
      (past ++ [(now, evs)], lb)
  end.

(** ** Integer arithmetic that does not overflow *)

Lemma wrap_small z :
  GoInt.MinInt <= z <= GoInt.MaxInt -> GoInt.wrap z = z.
Proof.
  unfold GoInt.wrap, GoInt.MinInt, GoInt.MaxInt. intros Hz.
  rewrite Z.mod_small; lia.
Qed.

(** ** The scan of [getNextBackend] *)

Lemma upto_elem n i : i ∈ upto n -> 0 <= i < Z.of_nat n.
Proof.
  unfold upto. intros Hi.
  apply list_elem_of_fmap in Hi as (j & -> & Hj).
  apply elem_of_seq in Hj. lia.
Qed.

Lemma rem_pos a b : 0 <= a -> 0 < b -> rem a b = Ok (a mod b).
Proof.
  intros Ha Hb. unfold rem.
  destruct (Z.eqb_spec b 0) as [->|_]; [lia|].
  by rewrite Z.rem_mod_nonneg by lia.
Qed.

Lemma index_in_range {A} (s : list A) i :
  0 <= i < len s -> exists a, s !! Z.to_nat i = Some a /\ index s i = Ok a.
Proof.
  unfold len, index. intros Hi.
  destruct (Z.ltb_spec i 0); [lia|].
  destruct (lookup_lt_is_Some_2 s (Z.to_nat i)) as [a Ha]; [lia|].
  exists a. by rewrite Ha.
Qed.

(** With the cursor in range, iteration [i] of the scan looks at position
    [(current + i) mod len] and, if that backend is alive, returns it with
    the cursor moved just past it. *)
Lemma scanStep_in_range lb i :
  cursorInRange lb -> fitsMemory lb -> 0 <= i < len (backends lb) ->
  let n := len (backends lb) in
  let idx := (current lb + i) mod n in
  exists b, backends lb !! Z.to_nat idx = Some b /\
    scanStep lb i =
      if Alive b
      then Ok (Some (Z.to_nat idx, set_current ((idx + 1) mod n) lb))
      else Ok None.
Proof.
  intros Hc Hm Hi n idx. unfold cursorInRange, fitsMemory, maxBackends in *.
  assert (Hidx : 0 <= idx < n) by (apply Z.mod_pos_bound; lia).
  destruct (index_in_range (backends lb) idx Hidx) as (b & Hb & Hix).
  exists b. split; [done|].
  unfold scanStep, GoInt.add.
  rewrite wrap_small by (unfold GoInt.MinInt, GoInt.MaxInt; lia).
  rewrite rem_pos by lia. cbn [mbind result_bind]. fold n idx.
  rewrite Hix. cbn [mbind result_bind]. unfold IsAlive.
  destruct (Alive b); [|done].
  rewrite wrap_small by (unfold GoInt.MinInt, GoInt.MaxInt; lia).
  by rewrite rem_pos by lia.
Qed.

(** Whatever the cursor, an iteration that returns has read a backend whose
    flag is set, and touches nothing but the cursor. *)
Lemma scanStep_returns lb i k lb' :
  scanStep lb i = Ok (Some (k, lb')) ->
  backends lb' = backends lb /\
  exists b, backends lb !! k = Some b /\ Alive b = true.
Proof.
  unfold scanStep, rem, index.
  destruct (len (backends lb) =? 0); [done|]. cbn [mbind result_bind].
  set (idx := Z.rem _ _).
  destruct (idx <? 0); [done|].
  destruct (backends lb !! Z.to_nat idx) as [b|] eqn:Hb; [|done].
  cbn [mbind result_bind]. unfold IsAlive.
  destruct (Alive b) eqn:Ha; [|done].
  cbn [mbind result_bind]. intros [= <- <-]. split; [done|]. eauto.
Qed.

Lemma for_each_returns lb ivs k lb' :
  for_each (scanStep lb) ivs = Ok (Some (k, lb')) ->
  backends lb' = backends lb /\
  exists b, backends lb !! k = Some b /\ Alive b = true.
Proof.
  induction ivs as [|i ivs IH]; cbn [for_each]; [done|].
  destruct (scanStep lb i) as [[[k0 lb0]|]|p] eqn:Hstep; [|done|done].
  intros [= -> ->]. by eapply scanStep_returns.
Qed.

(** A call that returns a backend returns a live one of the slice, and
    writes the cursor only; a call that returns [nil] writes nothing. *)
Lemma getNextBackend_ref lb k lb' :
  getNextBackend lb = Ok (Some k, lb') ->
  backends lb' = backends lb /\
  exists b, backends lb !! k = Some b /\ Alive b = true.
Proof.
  unfold getNextBackend.
  destruct (for_each _ _) as [[[k0 lb0]|]|p] eqn:Hloop;
    cbn [mbind result_bind]; [|done|done].
  intros [= -> ->]. by eapply for_each_returns.
Qed.

Lemma getNextBackend_nil lb lb' :
  getNextBackend lb = Ok (None, lb') -> lb' = lb.
Proof.
  unfold getNextBackend.
  destruct (for_each _ _) as [[[k0 lb0]|]|p];
    cbn [mbind result_bind]; congruence.
Qed.

Lemma for_each_in_range lb ivs :
  cursorInRange lb -> fitsMemory lb ->
  (forall i, i ∈ ivs -> 0 <= i < len (backends lb)) ->
  exists r, for_each (scanStep lb) ivs = Ok r /\
    match r with
    | Some (_, lb') => backends lb' = backends lb /\ cursorInRange lb'
    | None => True
    end.
Proof.
  intros Hc Hm. induction ivs as [|i ivs IH]; intros Hin; cbn [for_each].
  - by exists None.
  - destruct (scanStep_in_range lb i Hc Hm) as (b & _ & ->).
    { apply Hin. left. }
    destruct (Alive b).
    + eexists. split; [done|]. cbn. split; [done|].
      unfold cursorInRange in *. cbn. apply Z.mod_pos_bound. lia.
    + apply IH. intros j Hj. apply Hin. by right.
Qed.

(** With the cursor in range the call does not panic, keeps the slice and
    keeps the cursor in range. *)
Lemma getNextBackend_in_range lb :
  cursorInRange lb -> fitsMemory lb ->
  exists r lb', getNextBackend lb = Ok (r, lb') /\
    backends lb' = backends lb /\ cursorInRange lb'.
Proof.
  intros Hc Hm.
  destruct (for_each_in_range lb (upto (length (backends lb))) Hc Hm)
    as ([[k lb']|] & Hloop & Hr).
  { intros i Hi. by apply upto_elem. }
  - exists (Some k), lb'. unfold getNextBackend. by rewrite Hloop.
  - exists None, lb. unfold getNextBackend. by rewrite Hloop.
Qed.

Lemma upto_S n : upto (S n) = 0 :: (Z.succ <$> upto n).
Proof.
  unfold upto. cbn [seq fmap list_fmap]. f_equal.
  rewrite <- fmap_S_seq, <- !list_fmap_compose.
  apply list_fmap_ext. intros _ j _. cbn. lia.
Qed.

(** If the backend under the cursor is alive, it is the one returned. *)
Lemma getNextBackend_at_cursor lb b :
  cursorInRange lb -> fitsMemory lb ->
  backends lb !! Z.to_nat (current lb) = Some b -> Alive b = true ->
  getNextBackend lb =
    Ok (Some (Z.to_nat (current lb)),
        set_current ((current lb + 1) mod len (backends lb)) lb).
Proof.
  intros Hc Hm Hb Ha. unfold getNextBackend.
  pose proof Hc as Hc'. unfold cursorInRange, len in Hc'.
  destruct (length (backends lb)) as [|n] eqn:Hn; [lia|].
  rewrite upto_S. cbn [for_each].
  destruct (scanStep_in_range lb 0 Hc Hm) as (b' & Hb' & ->).
  { unfold cursorInRange in Hc. lia. }
  rewrite Z.add_0_r, Z.mod_small in Hb' by (unfold cursorInRange in Hc; lia).
  rewrite Z.add_0_r, (Z.mod_small (current lb)) by (unfold cursorInRange in Hc; lia).
  assert (b' = b) as -> by congruence. by rewrite Ha.
Qed.

Lemma for_each_none_alive lb ivs :
  cursorInRange lb -> fitsMemory lb -> noneAlive lb ->
  (forall i, i ∈ ivs -> 0 <= i < len (backends lb)) ->
  for_each (scanStep lb) ivs = Ok None.
Proof.
  intros Hc Hm Hdead. induction ivs as [|i ivs IH]; intros Hin; [done|].
  cbn [for_each].
  destruct (scanStep_in_range lb i Hc Hm) as (b & Hb & ->).
  { apply Hin. left. }
  unfold noneAlive in Hdead. rewrite Forall_lookup in Hdead.
  rewrite (Hdead _ _ Hb). apply IH. intros j Hj. apply Hin. by right.
Qed.

(** With no backend alive the call returns [nil] and writes nothing: the
    pool is empty, or the cursor is in range and the scan finds nobody. *)
Lemma getNextBackend_none_alive lb :
  backends lb = [] \/ (cursorInRange lb /\ fitsMemory lb) ->
  noneAlive lb ->
  getNextBackend lb = Ok (None, lb).
Proof.
  intros [Hnil|[Hc Hm]] Hdead; unfold getNextBackend.
  - by rewrite Hnil.
  - rewrite for_each_none_alive; [done..|].
    intros i Hi. by apply upto_elem.
Qed.

(** ** Rotation over a pool whose backends are all alive *)

Lemma set_current_same lb : set_current (current lb) lb = lb.
Proof. by destruct lb. Qed.

Lemma cyclicOrder_split c n :
  (c < n)%nat -> cyclicOrder c n = seq c (n - c) ++ seq 0 c.
Proof.
  intros Hc. unfold cyclicOrder.
  assert (Hsplit : seq 0 n = seq 0 (n - c) ++ seq (n - c) c).
  { rewrite <- seq_app. f_equal. lia. }
  rewrite Hsplit, fmap_app. f_equal.
  - transitivity (Nat.add c <$> seq 0 (n - c));
      [|by rewrite fmap_add_seq, Nat.add_0_r].
    apply list_fmap_ext. intros pos i Hi.
    apply list_elem_of_lookup_2, elem_of_seq in Hi.
    apply Nat.mod_small. lia.
  - transitivity ((fun i => (c + i) mod n)%nat <$> (Nat.add (n - c) <$> seq 0 c));
      [by rewrite fmap_add_seq, Nat.add_0_r|].
    rewrite <- list_fmap_compose. rewrite <- (list_fmap_id (seq 0 c)) at 2.
    apply list_fmap_ext. intros pos i Hi.
    apply list_elem_of_lookup_2, elem_of_seq in Hi. cbn.
    replace (c + (n - c + i))%nat with (i + 1 * n)%nat by lia.
    rewrite Nat.Div0.mod_add. apply Nat.mod_small. lia.
Qed.

(** Walking once round the ring from any place meets every place once. *)
Lemma cyclicOrder_perm c n : (c < n)%nat -> cyclicOrder c n ≡ₚ seq 0 n.
Proof.
  intros Hc. rewrite cyclicOrder_split by done.
  rewrite (Permutation_app_comm (seq c (n - c))).
  replace c with (0 + c)%nat at 2 by done.
  rewrite <- seq_app. by replace (c + (n - c))%nat with n by lia.
Qed.

(** [n] calls on a pool of live backends with the cursor at [c]: call number
    [i] returns the backend at [(c + i) mod len] and leaves the cursor just
    after it. *)
Lemma selectMany_all_alive n : forall lb (c : nat),
  allAlive lb -> fitsMemory lb ->
  current lb = Z.of_nat c -> (c < length (backends lb))%nat ->
  let len := length (backends lb) in
  selectMany n lb =
    (served len <$> ((fun i => (c + i) mod len)%nat <$> seq 0 n),
     set_current (Z.of_nat ((c + n) mod len)) lb).
Proof.
  unfold selectMany.
  induction n as [|n IH]; intros lb c Hall Hm Hcur Hc; cbn zeta.
  - cbn. rewrite Nat.add_0_r, Nat.mod_small, <- Hcur by done.
    by rewrite set_current_same.
  - cbn [replicate run]. unfold observe.
    assert (Hr : cursorInRange lb) by (unfold cursorInRange, len; lia).
    destruct (lookup_lt_is_Some_2 (backends lb) c Hc) as [b Hb].
    assert (Ha : Alive b = true).
    { unfold allAlive in Hall. rewrite Forall_lookup in Hall. eauto. }
    rewrite (getNextBackend_at_cursor lb b Hr Hm)
      by (rewrite ?Hcur, ?Nat2Z.id; done).
    rewrite Hcur, Nat2Z.id. unfold len.
    replace (Z.of_nat c + 1) with (Z.of_nat (c + 1)) by lia.
    rewrite <- Nat2Z.inj_mod.
    set (c' := ((c + 1) mod length (backends lb))%nat).
    assert (Hc' : (c' < length (backends lb))%nat)
      by (apply Nat.mod_upper_bound; lia).
    rewrite (IH (set_current (Z.of_nat c') lb) c') by done.
    cbn [backends set_current seq fmap list_fmap]. f_equal.
    + f_equal.
      * unfold served. cbn [current set_current].
        by rewrite Nat.add_0_r, (Nat.mod_small c) by done.
      * rewrite <- fmap_S_seq, <- !list_fmap_compose.
        apply list_fmap_ext. intros _ i _. cbn. f_equal. unfold c'.
        rewrite Nat.Div0.add_mod_idemp_l. f_equal. lia.
    + unfold set_current. cbn. f_equal. f_equal. unfold c'.
      rewrite Nat.Div0.add_mod_idemp_l. f_equal. lia.
Qed.

(** C1.  On a pool of [n >= 1] backends that are all alive, [n] consecutive
    [getNextBackend] calls return every backend exactly once, in the cyclic
    order [c, c+1, ..., n-1, 0, ..., c-1] of the configured positions
    starting at the initial cursor [c]; after each call the cursor is
    (the returned position + 1) mod [n]; after the [n] calls the pool is
    back in its initial state. *)
Theorem round_robin_all_alive lb :
  1 <= len (backends lb) -> allAlive lb ->
  cursorInRange lb -> fitsMemory lb ->
  let n := length (backends lb) in
  let order := cyclicOrder (Z.to_nat (current lb)) n in
  selectMany n lb = (served n <$> order, lb) /\ order ≡ₚ seq 0 n.
Proof.
  intros _ Hall Hc Hm n order.
  assert (Hcur : current lb = Z.of_nat (Z.to_nat (current lb)))
    by (unfold cursorInRange in Hc; lia).
  assert (Hlt : (Z.to_nat (current lb) < n)%nat)
    by (unfold cursorInRange, len in Hc; subst n; lia).
  split; [|by apply cyclicOrder_perm].
  rewrite (selectMany_all_alive n lb (Z.to_nat (current lb))) by done.
  fold n. fold (cyclicOrder (Z.to_nat (current lb)) n). fold order. f_equal.
  replace (Z.to_nat (current lb) + n)%nat
    with (Z.to_nat (current lb) + 1 * n)%nat by lia.
  rewrite Nat.Div0.mod_add, Nat.mod_small, <- Hcur by done.
  apply set_current_same.
Qed.

Lemma round_robin_all_alive_witness :
  let lb := pool3 true true true 1 in
  (1 <= len (backends lb) /\ allAlive lb /\ cursorInRange lb /\ fitsMemory lb)
  /\ selectMany 3 lb = ([served 3 1; served 3 2; served 3 0]%nat, lb)
  /\ [1; 2; 0]%nat ≡ₚ [0; 1; 2]%nat.
Proof.
  assert (H1 : 1 <= len (backends (pool3 true true true 1)))
    by (unfold len; cbn; lia).
  assert (H2 : allAlive (pool3 true true true 1))
    by (repeat constructor).
  assert (H3 : cursorInRange (pool3 true true true 1))
    by (unfold cursorInRange, len; cbn; lia).
  assert (H4 : fitsMemory (pool3 true true true 1))
    by (unfold fitsMemory, maxBackends, len; cbn; lia).
  split; [done|].
  exact (round_robin_all_alive (pool3 true true true 1) H1 H2 H3 H4).
Defined.

(** ** Dead backends *)

Lemma observe_backends lb : backends (observe lb).2 = backends lb.
Proof.
  unfold observe.
  destruct (getNextBackend lb) as [[[k|] lb']|p] eqn:Hcall; cbn.
  - by destruct (getNextBackend_ref _ _ _ Hcall).
  - by rewrite (getNextBackend_nil _ _ Hcall).
  - done.
Qed.

Lemma observe_alive lb k :
  returned (observe lb).1 = Ok (Some k) ->
  exists b, backends lb !! k = Some b /\ Alive b = true.
Proof.
  unfold observe.
  destruct (getNextBackend lb) as [[[j|] lb']|p] eqn:Hcall; cbn;
    intros [= <-].
  by destruct (getNextBackend_ref _ _ _ Hcall).
Qed.

Lemma run_skips_dead ops : forall lb k b,
  backends lb !! k = Some b -> Alive b = false ->
  Forall (fun op => ~ revives k op) ops ->
  Forall (fun o => returned o <> Ok (Some k)) (run ops lb).1.
Proof.
  induction ops as [|[|j alive] ops IH]; intros lb k b Hb Hdead Hops;
    cbn [run]; [by constructor|..];
    apply Forall_cons in Hops as [Hop Hops].
  - pose proof (observe_backends lb) as Hsame.
    pose proof (observe_alive lb k) as Hlive.
    destruct (observe lb) as [o lb']. cbn in Hsame, Hlive.
    specialize (IH lb' k b). rewrite Hsame in IH.
    specialize (IH Hb Hdead Hops).
    destruct (run ops lb') as [os lb'']. cbn in *.
    constructor; [|done].
    intros Hret. destruct (Hlive Hret) as (b' & Hb' & Ha). congruence.
  - destruct (decide (j = k)) as [->|Hne].
    + destruct alive; [by destruct Hop|].
      apply (IH _ k (SetAlive false b)); [|done..].
      unfold setAliveAt. cbn [backends].
      by rewrite list_lookup_alter_eq, Hb.
    + apply (IH _ k b); [|done..].
      unfold setAliveAt. cbn [backends].
      by rewrite list_lookup_alter_ne.
Qed.

(** C2.  While the backend at position [k] has its flag cleared,
    [getNextBackend] does not return it: not in any run of calls and flag
    writes that never sets the flag of [k] again, whatever the cursor is and
    however many calls are made; in particular not in any number of
    consecutive calls. *)
Theorem dead_backend_never_selected lb k b :
  backends lb !! k = Some b -> Alive b = false ->
  (forall ops, Forall (fun op => ~ revives k op) ops ->
     Forall (fun o => returned o <> Ok (Some k)) (run ops lb).1)
  /\ (forall n,
     Forall (fun o => returned o <> Ok (Some k)) (selectMany n lb).1).
Proof.
  intros Hb Hdead. split.
  - intros ops Hops. by eapply run_skips_dead.
  - intros n. unfold selectMany. eapply run_skips_dead; [done..|].
    apply Forall_forall. intros op Hop.
    apply elem_of_replicate_inv in Hop as ->. discriminate.
Qed.

Lemma dead_backend_never_selected_witness :
  let lb := pool3 true false true 0 in
  let ops := [Select; MarkAlive 0 false; Select; MarkAlive 1 false;
              MarkAlive 0 true; Select; Select]%nat in
  (backends lb !! 1%nat = Some (backendAt "http://localhost:8082" false)
   /\ Alive (backendAt "http://localhost:8082" false) = false)
  /\ Forall (fun o => returned o <> Ok (Some 1%nat)) (run ops lb).1
  /\ Forall (fun o => returned o <> Ok (Some 1%nat)) (selectMany 5 lb).1.
Proof.
  cbn zeta.
  pose proof (dead_backend_never_selected (pool3 true false true 0) 1%nat
                (backendAt "http://localhost:8082" false) eq_refl eq_refl)
    as [Hrun Hmany].
  split; [done|]. split; [|exact (Hmany 5%nat)].
  apply Hrun. repeat constructor; discriminate.
Defined.

(** The pool [A (alive), B (not alive), C (alive)] with the cursor at 0:
    A, then C with the cursor wrapping to 0, then A again. *)
Example rotation_skips_dead_backend :
  (selectMany 3 (pool3 true false true 0)).1 =
  [served 3 0; served 3 2; served 3 0]%nat.
Proof. reflexivity. Qed.

(** A cursor outside the slice makes the call panic; the pool is left as it
    was. *)
Example negative_cursor_panics :
  getNextBackend (pool3 true true true (-1)) = Panic IndexOutOfRange.
Proof. reflexivity. Qed.

(** C3.  When no backend is alive, every [getNextBackend] call returns [nil]
    and the pool, the cursor included, is what it was before the calls.
    (The pool is a state of the data model: it is empty, or its cursor is in
    range.) *)
Theorem none_alive_refused lb n :
  noneAlive lb ->
  backends lb = [] \/ (cursorInRange lb /\ fitsMemory lb) ->
  selectMany n lb = (replicate n (refused (current lb)), lb).
Proof.
  intros Hdead Hwf. unfold selectMany.
  induction n as [|n IH]; [done|].
  cbn [replicate run]. unfold observe.
  rewrite getNextBackend_none_alive by done.
  by rewrite IH.
Qed.

Lemma none_alive_refused_witness :
  let lb := pool3 false false false 2 in
  (noneAlive lb /\
   (backends lb = [] \/ (cursorInRange lb /\ fitsMemory lb)))
  /\ selectMany 3 lb = ([refused 2; refused 2; refused 2], lb).
Proof.
  assert (H1 : noneAlive (pool3 false false false 2)) by (repeat constructor).
  assert (H2 : backends (pool3 false false false 2) = [] \/
               (cursorInRange (pool3 false false false 2) /\
                fitsMemory (pool3 false false false 2))).
  { right. unfold cursorInRange, fitsMemory, maxBackends, len. cbn. lia. }
  split; [done|].
  exact (none_alive_refused (pool3 false false false 2) 3 H1 H2).
Defined.

(** ** The cursor invariant *)

Lemma setAliveAt_in_range k alive lb :
  cursorInRange lb -> cursorInRange (setAliveAt k alive lb).
Proof.
  unfold cursorInRange, setAliveAt, len. cbn [backends current].
  by rewrite length_alter.
Qed.

Lemma setAliveAt_fitsMemory k alive lb :
  fitsMemory lb -> fitsMemory (setAliveAt k alive lb).
Proof.
  unfold fitsMemory, setAliveAt, len. cbn [backends].
  by rewrite length_alter.
Qed.

(** No run of pool operations panics, resizes the slice or takes the cursor
    out of range. *)
Lemma run_in_range ops : forall lb,
  cursorInRange lb -> fitsMemory lb ->
  length (backends (run ops lb).2) = length (backends lb)
  /\ cursorInRange (run ops lb).2
  /\ Forall (fun o => (exists r, returned o = Ok r) /\
                      0 <= cursorAfter o < len (backends lb))
            (run ops lb).1.
Proof.
  induction ops as [|[|k alive] ops IH]; intros lb Hc Hm; cbn [run].
  - split; [done|]. split; [done|]. constructor.
  - unfold observe.
    destruct (getNextBackend_in_range lb Hc Hm) as (r & lb' & -> & Hbs & Hc').
    assert (Hm' : fitsMemory lb') by (unfold fitsMemory; by rewrite Hbs).
    destruct (IH lb' Hc' Hm') as (Hlen & Hcur & Hobs).
    destruct (run ops lb') as [os lb'']. cbn in *.
    rewrite Hbs in Hlen, Hobs. split; [done|]. split; [done|].
    constructor; [|done]. cbn. split; [by eexists|].
    unfold cursorInRange in Hc'. by rewrite Hbs in Hc'.
  - destruct (IH (setAliveAt k alive lb)) as (Hlen & Hcur & Hobs).
    { by apply setAliveAt_in_range. }
    { by apply setAliveAt_fitsMemory. }
    unfold setAliveAt in Hlen at 2. unfold setAliveAt in Hobs at 1.
    cbn [backends] in Hlen, Hobs. unfold len in Hobs.
    rewrite length_alter in Hlen, Hobs. done.
Qed.

(** C4.  On a pool of at least one backend whose cursor is in
    [0, len(backends)), a [getNextBackend] call returns without panic and
    leaves the cursor in that range, over a slice of the same length; so
    does [SetAlive] on any backend; so does any run of the two.  The cursor
    of a pool fresh from [NewLoadBalancer] is 0. *)
Theorem cursor_stays_in_range lb :
  1 <= len (backends lb) -> cursorInRange lb -> fitsMemory lb ->
  (exists r lb', getNextBackend lb = Ok (r, lb') /\
     len (backends lb') = len (backends lb) /\ cursorInRange lb')
  /\ (forall k alive,
     len (backends (setAliveAt k alive lb)) = len (backends lb) /\
     cursorInRange (setAliveAt k alive lb))
  /\ (forall ops,
     len (backends (run ops lb).2) = len (backends lb) /\
     cursorInRange (run ops lb).2)
  /\ (forall url_Parse backendURLs,
     current (NewLoadBalancer url_Parse backendURLs).2 = 0).
Proof.
  intros _ Hc Hm. split; [|split; [|split]].
  - destruct (getNextBackend_in_range lb Hc Hm) as (r & lb' & Hcall & Hbs & Hc').
    exists r, lb'. by rewrite Hbs.
  - intros k alive. split; [|by apply setAliveAt_in_range].
    unfold setAliveAt, len. cbn [backends]. by rewrite length_alter.
  - intros ops. destruct (run_in_range ops lb Hc Hm) as (Hlen & Hcur & _).
    split; [|done]. unfold len. by rewrite Hlen.
  - intros url_Parse backendURLs. unfold NewLoadBalancer.
    by destruct (foldl (addBackend url_Parse) _ backendURLs).
Qed.

Lemma cursor_stays_in_range_witness :
  let lb := pool3 true false true 2 in
  (1 <= len (backends lb) /\ cursorInRange lb /\ fitsMemory lb)
  /\ (exists r lb', getNextBackend lb = Ok (r, lb') /\
        len (backends lb') = len (backends lb) /\ cursorInRange lb')
  /\ (forall k alive,
        len (backends (setAliveAt k alive lb)) = len (backends lb) /\
        cursorInRange (setAliveAt k alive lb))
  /\ (forall ops,
        len (backends (run ops lb).2) = len (backends lb) /\
        cursorInRange (run ops lb).2)
  /\ (forall url_Parse backendURLs,
        current (NewLoadBalancer url_Parse backendURLs).2 = 0).
Proof.
  assert (H1 : 1 <= len (backends (pool3 true false true 2)))
    by (unfold len; cbn; lia).
  assert (H2 : cursorInRange (pool3 true false true 2))
    by (unfold cursorInRange, len; cbn; lia).
  assert (H3 : fitsMemory (pool3 true false true 2))
    by (unfold fitsMemory, maxBackends, len; cbn; lia).
  split; [done|].
  exact (cursor_stays_in_range (pool3 true false true 2) H1 H2 H3).
Defined.

(** C10.  On a pool with no backends the loop of [getNextBackend] has no
    iteration to run, so nothing is divided and nothing is indexed: the call
    returns [nil] and leaves the pool as it was, whatever the cursor. *)
Theorem getNextBackend_empty_pool (c : Z) :
  let lb := {| backends := []; current := c |} in
  upto (length (backends lb)) = [] /\ getNextBackend lb = Ok (None, lb).
Proof. done. Qed.

(** ** Construction and start-up *)

Lemma foldl_addBackend_urls url_Parse backendURLs : forall log bs,
  URL <$> (foldl (addBackend url_Parse) (log, bs) backendURLs).2 =
  (URL <$> bs) ++ List.filter (parses url_Parse) backendURLs.
Proof.
  induction backendURLs as [|u us IH]; intros log bs; cbn [foldl List.filter].
  - by rewrite app_nil_r.
  - unfold addBackend at 2, parses. destruct (url_Parse u) as [parsed|err].
    + rewrite IH, fmap_app. cbn. by rewrite <- app_assoc.
    + by rewrite IH.
Qed.

Lemma foldl_addBackend_log url_Parse backendURLs : forall log bs e,
  e ∈ log \/
  (exists u err, u ∈ backendURLs /\ url_Parse u = inr err /\
                 e = Printf (ErrParseURL u err)) ->
  e ∈ (foldl (addBackend url_Parse) (log, bs) backendURLs).1.
Proof.
  induction backendURLs as [|u us IH]; intros log bs e; cbn [foldl].
  - intros [He|(u & err & Hu & _)]; [done|]. by apply elem_of_nil in Hu.
  - intros He. unfold addBackend at 2.
    destruct (url_Parse u) as [parsed|err0] eqn:Hparse; apply IH.
    + destruct He as [He|(u' & err & Hu' & Herr & ->)].
      * left. apply elem_of_app. by left.
      * apply elem_of_cons in Hu' as [->|Hu']; [congruence|].
        right. by exists u', err.
    + destruct He as [He|(u' & err & Hu' & Herr & ->)].
      * left. apply elem_of_app. by left.
      * apply elem_of_cons in Hu' as [->|Hu'].
        -- left. apply elem_of_app. right.
           assert (err = err0) as -> by congruence. left.
        -- right. by exists u', err.
Qed.

(** The pool holds one backend per address that parses, in the configured
    order. *)
Lemma NewLoadBalancer_urls url_Parse backendURLs :
  URL <$> backends (NewLoadBalancer url_Parse backendURLs).2 =
  List.filter (parses url_Parse) backendURLs.
Proof.
  unfold NewLoadBalancer.
  pose proof (foldl_addBackend_urls url_Parse backendURLs [] []) as Hurls.
  by destruct (foldl _ _ _).
Qed.

Lemma NewLoadBalancer_log url_Parse backendURLs u err :
  u ∈ backendURLs -> url_Parse u = inr err ->
  Printf (ErrParseURL u err) ∈ (NewLoadBalancer url_Parse backendURLs).1.
Proof.
  intros Hu Herr. unfold NewLoadBalancer.
  pose proof (foldl_addBackend_log url_Parse backendURLs [] []
                (Printf (ErrParseURL u err))) as Hlog.
  destruct (foldl _ _ _). apply Hlog. right. by exists u, err.
Qed.

Lemma checkFrom_cons http_Get i backend rest aliveCount :
  checkFrom http_Get i (backend :: rest) aliveCount =
  let step := checkBackend (http_Get i (URL backend)) backend in
  let tail := checkFrom http_Get (S i) rest
                (if step.2 then GoInt.add aliveCount 1 else aliveCount) in
  (step.1.1 ++ tail.1.1, step.1.2 :: tail.1.2, tail.2).
Proof.
  cbn [checkFrom].
  destruct (checkBackend _ _) as [[ev backend'] up]. cbn.
  by destruct (checkFrom _ _ _ _) as [[evs rest'] n].
Qed.

(** A cycle writes the flag of the backend at every position from what its
    probe returned, and nothing else. *)
Lemma checkFrom_backends http_Get bs : forall i aliveCount,
  (checkFrom http_Get i bs aliveCount).1.2 =
  imap (fun j b => (checkBackend (http_Get (i + j)%nat (URL b)) b).1.2) bs.
Proof.
  induction bs as [|b bs IH]; intros i n; [done|].
  rewrite checkFrom_cons. cbn [fst snd imap]. rewrite Nat.add_0_r. f_equal.
  rewrite IH. apply imap_ext. intros j b' _. cbn.
  by rewrite Nat.add_succ_r.
Qed.

Lemma checkBackend_URL g b : URL (checkBackend g b).1.2 = URL b.
Proof.
  destruct g as [err resp|status]; cbn; [done|].
  by destruct (negb (status =? StatusOK)).
Qed.

Lemma healthCheck_backends http_Get lb :
  backends (healthCheck http_Get lb).2 =
  imap (fun j b => (checkBackend (http_Get j (URL b)) b).1.2) (backends lb).
Proof.
  unfold healthCheck.
  pose proof (checkFrom_backends http_Get (backends lb) 0 0) as Hbs.
  by destruct (checkFrom _ _ _ _) as [[evs bs] n].
Qed.

Lemma healthCheck_urls http_Get lb :
  URL <$> backends (healthCheck http_Get lb).2 = URL <$> backends lb.
Proof.
  rewrite healthCheck_backends. apply list_eq. intros j.
  rewrite !list_lookup_fmap, list_lookup_imap.
  destruct (backends lb !! j) as [b|]; [|done]. cbn.
  by rewrite checkBackend_URL.
Qed.

(** ** Health checks *)

(** C6, as the program has it.  A health-check cycle leaves every backend
    with the flag its own probe of this cycle decides: cleared after a
    transport error, cleared after a response whose status is not
    [http.StatusOK] (200), the other success statuses 201 to 299 included,
    set after a response with status 200; what the flag was before plays no
    part.  Address, proxy, position and cursor are kept. *)
Theorem health_check_sets_flags http_Get lb k b :
  backends lb !! k = Some b ->
  let g := http_Get k (URL b) in
  exists b', backends (healthCheck http_Get lb).2 !! k = Some b'
    /\ URL b' = URL b /\ Proxy b' = Proxy b
    /\ Alive b' = probeSucceeded g
    /\ Alive b' = match g with
                  | GetFailed _ _ => false
                  | GetResponse status => bool_decide (status = StatusOK)
                  end
    /\ current (healthCheck http_Get lb).2 = current lb.
Proof.
  intros Hb g. rewrite healthCheck_backends, list_lookup_imap, Hb. cbn.
  eexists. split; [done|]. fold g.
  assert (Hcur : current (healthCheck http_Get lb).2 = current lb).
  { unfold healthCheck. by destruct (checkFrom _ _ _ _) as [[? ?] ?]. }
  destruct g as [err resp|status]; cbn; [done|].
  destruct (Z.eqb_spec status StatusOK) as [->|Hne]; cbn; [done|].
  by rewrite bool_decide_eq_false_2.
Qed.

Lemma health_check_sets_flags_witness :
  let lb := pool3 true false true 0 in
  let after := backends (healthCheck mixedProbes lb).2 in
  backends lb !! 1%nat = Some (backendAt "http://localhost:8082" false)
  /\ Alive <$> after = [false; true; false]
  /\ exists b', after !! 1%nat = Some b' /\ Alive b' = true.
Proof.
  destruct (health_check_sets_flags mixedProbes (pool3 true false true 0) 1%nat
              (backendAt "http://localhost:8082" false) eq_refl)
    as (b' & Hb' & _ & _ & Ha & _).
  split; [done|]. split; [done|]. by exists b'.
Defined.

(** A live backend that answers its probe with 204 No Content, a success
    status, has its flag cleared. *)
Lemma no_content_marks_not_alive :
  ~ successMarksAlive 204 (backendAt "http://localhost:8081" true).
Proof. intros Hpolicy. specialize (Hpolicy eq_refl). discriminate Hpolicy. Qed.

(** Only 200 counts: a 204 clears the flag like any other status. *)
Example no_content_clears_flag :
  let b := backendAt "http://localhost:8081" true in
  Alive (checkBackend (GetResponse 204) b).1.2 = false.
Proof. reflexivity. Qed.

Lemma count_app p evs1 evs2 :
  count p (evs1 ++ evs2) = (count p evs1 + count p evs2)%nat.
Proof. unfold count. by rewrite List.filter_app, length_app. Qed.

Lemma count_none p evs :
  Forall (fun e => p e = false) evs -> count p evs = 0%nat.
Proof.
  unfold count. induction 1 as [|e evs He _ IH]; [done|].
  cbn. by rewrite He.
Qed.

Lemma checkBackend_recoveries g b :
  count isRecovery (checkBackend g b).1.1 =
  if probeSucceeded g && negb (Alive b) then 1%nat else 0%nat.
Proof.
  destruct g as [err [|]|status]; cbn; [done..|].
  destruct (status =? StatusOK); cbn; [|done].
  unfold IsAlive. by destruct (Alive b).
Qed.

Lemma checkFrom_recoveries http_Get bs : forall i aliveCount,
  count isRecovery (checkFrom http_Get i bs aliveCount).1.1 =
  sum_list (imap (fun j b =>
              if probeSucceeded (http_Get (i + j)%nat (URL b)) && negb (Alive b)
              then 1%nat else 0%nat) bs).
Proof.
  induction bs as [|b bs IH]; intros i n; [done|].
  rewrite checkFrom_cons. cbn [fst snd imap sum_list sum_list_with].
  rewrite count_app, checkBackend_recoveries, IH, Nat.add_0_r. f_equal.
  f_equal. apply imap_ext. intros j b' _. cbn. by rewrite Nat.add_succ_r.
Qed.

(** C7.  In a health-check cycle each backend whose probe succeeds while its
    flag is cleared contributes exactly one recovery line, and every other
    backend (probe succeeded with the flag already set, or probe failed)
    contributes none: so it is for the loop body on one backend, and the
    recovery lines of the cycle are the sum over the backends. *)
Theorem recovery_logged_once http_Get lb :
  (forall g b,
     count isRecovery (checkBackend g b).1.1 =
     if probeSucceeded g then (if Alive b then 0%nat else 1%nat) else 0%nat)
  /\ count isRecovery (healthCheck http_Get lb).1 =
     sum_list (imap (fun k b =>
                 if probeSucceeded (http_Get k (URL b)) && negb (Alive b)
                 then 1%nat else 0%nat) (backends lb)).
Proof.
  split.
  - intros g b. rewrite checkBackend_recoveries.
    by destruct (probeSucceeded g), (Alive b).
  - unfold healthCheck.
    pose proof (checkFrom_recoveries http_Get (backends lb) 0 0) as Hrec.
    destruct (checkFrom _ _ _ _) as [[evs bs] n]. cbn [fst snd] in *.
    rewrite !count_app, Hrec. cbn. lia.
Qed.

(** ** Dispatch *)

(** C8.  [ServeHTTP] asks [getNextBackend] once.  If the answer is [nil] it
    logs the outage and answers 503 itself, with the fixed text, and forwards
    to nobody.  If the answer is a backend it hands the request to the proxy
    of that backend, and to no other, and writes no response of its own.  The
    pool afterwards is the one [getNextBackend] left. *)
Theorem ServeHTTP_dispatch elapsed r lb :
  match getNextBackend lb with
  | Ok (None, lb') =>
      ServeHTTP elapsed r lb =
        Ok ([Printf (ErrAllBackendsDown (Method r) (Path r));
             HttpError "Service unavailable - all backends are down" 503],
            lb')
  | Ok (Some k, lb') =>
      exists b evs,
        backends lb !! k = Some b /\ Alive b = true
        /\ ServeHTTP elapsed r lb = Ok (evs, lb')
        /\ evs = [Printf (InfoForwarding (URL b) (Method r) (Path r));
                  ProxyServeHTTP k (Proxy b) r;
                  Printf (InfoCompleted elapsed (URL b))]
        /\ forwardedTo evs = [(k, r)] /\ answered evs = []
  | Panic p => ServeHTTP elapsed r lb = Panic p
  end.
Proof.
  unfold ServeHTTP.
  destruct (getNextBackend lb) as [[[k|] lb']|p] eqn:Hcall;
    cbn [mbind result_bind]; [|done..].
  destruct (getNextBackend_ref _ _ _ Hcall) as (Hbs & b & Hb & Ha).
  exists b. eexists. unfold deref. rewrite Hbs, Hb. cbn [mbind result_bind].
  by repeat split.
Qed.

(** Three backends, none alive: 503 and no forwarding, three times in a
    row, with the pool untouched. *)
Example outage_answers_503 :
  let lb := pool3 false false false 0 in
  ServeHTTP 0 requestSample lb =
    Ok ([Printf (ErrAllBackendsDown "GET" "/index.html");
         HttpError "Service unavailable - all backends are down" 503], lb)
  /\ (selectMany 3 lb).1 = [refused 0; refused 0; refused 0].
Proof. split; reflexivity. Qed.

(** ** The first health check *)

Lemma foldl_addBackend_quiet url_Parse backendURLs : forall log bs,
  Forall quiet log ->
  Forall quiet (foldl (addBackend url_Parse) (log, bs) backendURLs).1.
Proof.
  induction backendURLs as [|u us IH]; intros log bs Hlog; cbn [foldl];
    [done|].
  unfold addBackend at 2.
  destruct (url_Parse u); apply IH, Forall_app; split; try done;
    by repeat constructor.
Qed.

Lemma NewLoadBalancer_quiet url_Parse backendURLs :
  Forall quiet (NewLoadBalancer url_Parse backendURLs).1.
Proof.
  unfold NewLoadBalancer.
  pose proof (foldl_addBackend_quiet url_Parse backendURLs [] []
                (Forall_nil_2 _)) as Hq.
  by destruct (foldl _ _ _).
Qed.

Lemma checkBackend_quiet g b : Forall quiet (checkBackend g b).1.1.
Proof.
  destruct g as [err [|]|status]; cbn; [by repeat constructor..|].
  destruct (status =? StatusOK); cbn; [|by repeat constructor].
  destruct (IsAlive b); cbn; by repeat constructor.
Qed.

Lemma checkFrom_quiet http_Get bs : forall i aliveCount,
  Forall quiet (checkFrom http_Get i bs aliveCount).1.1.
Proof.
  induction bs as [|b bs IH]; intros i n; [constructor|].
  rewrite checkFrom_cons. cbn [fst snd].
  apply Forall_app. split; [apply checkBackend_quiet|apply IH].
Qed.

Lemma quiet_counts evs :
  Forall quiet evs ->
  count isCheckStart evs = 0%nat /\ count isLaunch evs = 0%nat.
Proof.
  intros Hq. split; apply count_none;
    (eapply Forall_impl; [exact Hq|]); by intros e [? ?].
Qed.

(** A cycle opens once, and launches nothing. *)
Lemma healthCheck_counts http_Get lb :
  count isCheckStart (healthCheck http_Get lb).1 = 1%nat /\
  count isLaunch (healthCheck http_Get lb).1 = 0%nat.
Proof.
  unfold healthCheck.
  pose proof (checkFrom_quiet http_Get (backends lb) 0 0) as Hq.
  destruct (checkFrom _ _ _ _) as [[evs bs] n]. cbn [fst snd] in *.
  destruct (quiet_counts evs Hq) as [Hc Hl].
  rewrite !count_app, Hc, Hl. done.
Qed.

(** On a pool of three live backends whose network is down,
    [startHealthChecks] opens no cycle and clears no flag. *)
Lemma start_runs_no_check :
  ~ startRunsCheck (10 * Second) allDown (pool3 true true true 0).
Proof. intros [Hcount _]. vm_compute in Hcount. discriminate Hcount. Qed.

(** * Further properties of the program *)

(** ** Which backend a call returns *)

Lemma cursor_as_nat lb :
  cursorInRange lb ->
  current lb = Z.of_nat (Z.to_nat (current lb)) /\
  (Z.to_nat (current lb) < length (backends lb))%nat.
Proof. unfold cursorInRange, len. lia. Qed.

(** Iteration [i] of the scan, in terms of positions. *)
Lemma scanStep_position lb (i : nat) :
  cursorInRange lb -> fitsMemory lb -> (i < length (backends lb))%nat ->
  let p := ((Z.to_nat (current lb) + i) mod length (backends lb))%nat in
  scanStep lb (Z.of_nat i) =
    if aliveAt lb p then Ok (Some (p, afterServing p lb)) else Ok None.
Proof.
  intros Hc Hm Hi p.
  destruct (cursor_as_nat lb Hc) as [Hcur Hlt].
  destruct (scanStep_in_range lb (Z.of_nat i) Hc Hm) as (b & Hb & ->);
    [unfold len; lia|].
  assert (Hp : (current lb + Z.of_nat i) mod len (backends lb) = Z.of_nat p).
  { unfold p, len. rewrite Nat2Z.inj_mod, Nat2Z.inj_add. by rewrite <- Hcur. }
  rewrite Hp, Nat2Z.id in Hb. rewrite Hp, Nat2Z.id.
  unfold aliveAt. rewrite Hb. destruct (Alive b); [|done].
  unfold afterServing, len.
  replace (Z.of_nat p + 1) with (Z.of_nat (p + 1)) by lia.
  by rewrite <- Nat2Z.inj_mod.
Qed.

Lemma for_each_find lb (ivs : list nat) :
  cursorInRange lb -> fitsMemory lb ->
  Forall (fun i => i < length (backends lb))%nat ivs ->
  let position i :=
    ((Z.to_nat (current lb) + i) mod length (backends lb))%nat in
  for_each (scanStep lb) (Z.of_nat <$> ivs) =
    Ok (match List.find (aliveAt lb) (position <$> ivs) with
        | Some k => Some (k, afterServing k lb)
        | None => None
        end).
Proof.
  intros Hc Hm Hin position.
  induction Hin as [|i ivs Hi _ IH]; [done|].
  cbn [fmap list_fmap for_each List.find].
  rewrite (scanStep_position lb i Hc Hm Hi). fold (position i).
  by destruct (aliveAt lb (position i)).
Qed.

(** With the cursor in range, a call returns the first live backend of the
    scan order and moves the cursor just past it; when the scan order holds
    no live backend it returns [nil] and writes nothing. *)
Lemma getNextBackend_find lb :
  cursorInRange lb -> fitsMemory lb ->
  getNextBackend lb =
    Ok (match List.find (aliveAt lb) (scanOrder lb) with
        | Some k => (Some k, afterServing k lb)
        | None => (None, lb)
        end).
Proof.
  intros Hc Hm. unfold getNextBackend, upto.
  rewrite (for_each_find lb (seq 0 (length (backends lb))) Hc Hm).
  - fold (cyclicOrder (Z.to_nat (current lb)) (length (backends lb))).
    fold (scanOrder lb).
    by destruct (List.find _ _).
  - apply Forall_forall. intros i Hi. apply elem_of_seq in Hi. lia.
Qed.

Lemma find_first {A} (p : A -> bool) l :
  match List.find p l with
  | Some x => exists pre post,
      l = pre ++ x :: post /\ Forall (fun y => p y = false) pre /\ p x = true
  | None => Forall (fun y => p y = false) l
  end.
Proof.
  induction l as [|y l IH]; cbn [List.find]; [constructor|].
  destruct (p y) eqn:Hy.
  - exists [], l. by repeat split.
  - destruct (List.find p l) as [x|].
    + destruct IH as (pre & post & -> & Hpre & Hx).
      exists (y :: pre), post. repeat split; [|done]. by constructor.
    + by constructor.
Qed.

(** X1.  With the cursor in range, [getNextBackend] returns the first live
    backend met when scanning once round the slice from the cursor: every
    position scanned before it is not alive, and the cursor is left just past
    it.  If the scan meets no live backend the call returns [nil] and the
    pool is unchanged.  In neither case does the call panic. *)
Theorem getNextBackend_first_alive lb :
  cursorInRange lb -> fitsMemory lb ->
  (exists skipped k rest,
     scanOrder lb = skipped ++ k :: rest
     /\ Forall (fun j => aliveAt lb j = false) skipped
     /\ aliveAt lb k = true
     /\ getNextBackend lb = Ok (Some k, afterServing k lb))
  \/ (Forall (fun j => aliveAt lb j = false) (scanOrder lb)
      /\ getNextBackend lb = Ok (None, lb)).
Proof.
  intros Hc Hm. rewrite (getNextBackend_find lb Hc Hm).
  pose proof (find_first (aliveAt lb) (scanOrder lb)) as Hfind.
  destruct (List.find _ _) as [k|].
  - left. destruct Hfind as (pre & post & Hsplit & Hpre & Hk).
    by exists pre, k, post.
  - by right.
Qed.

Lemma getNextBackend_first_alive_witness :
  let lb := pool3 false false true 0 in
  (cursorInRange lb /\ fitsMemory lb)
  /\ scanOrder lb = [0; 1]%nat ++ 2%nat :: []
  /\ getNextBackend lb = Ok (Some 2%nat, pool3 false false true 0).
Proof.
  assert (H1 : cursorInRange (pool3 false false true 0))
    by (unfold cursorInRange, len; cbn; lia).
  assert (H2 : fitsMemory (pool3 false false true 0))
    by (unfold fitsMemory, maxBackends, len; cbn; lia).
  split; [done|].
  destruct (getNextBackend_first_alive (pool3 false false true 0) H1 H2)
    as [(skipped & k & rest & _ & _ & _ & _)|[_ Hnil]].
  - split; reflexivity.
  - discriminate Hnil.
Defined.

Lemma scanOrder_perm lb :
  cursorInRange lb -> scanOrder lb ≡ₚ seq 0 (length (backends lb)).
Proof.
  intros Hc. apply cyclicOrder_perm. by destruct (cursor_as_nat lb Hc).
Qed.

Lemma dead_everywhere lb :
  Forall (fun j => aliveAt lb j = false) (seq 0 (length (backends lb)))
  <-> noneAlive lb.
Proof.
  unfold noneAlive. rewrite !Forall_lookup. split.
  - intros Hdead j b Hb.
    assert (Hj : (j < length (backends lb))%nat) by by eapply lookup_lt_Some.
    specialize (Hdead j j (lookup_seq_lt 0 _ j Hj)).
    unfold aliveAt in Hdead. by rewrite Hb in Hdead.
  - intros Hdead i j Hj. apply lookup_seq in Hj as [-> Hi]. cbn.
    unfold aliveAt. destruct (backends lb !! i) eqn:Hb; [|done]. eauto.
Qed.

(** A call finds nobody exactly when nobody is alive. *)
Lemma getNextBackend_cases lb :
  cursorInRange lb -> fitsMemory lb ->
  (noneAlive lb /\ getNextBackend lb = Ok (None, lb))
  \/ (~ noneAlive lb /\
      exists k, aliveAt lb k = true /\
                getNextBackend lb = Ok (Some k, afterServing k lb)).
Proof.
  intros Hc Hm.
  assert (Hscan : Forall (fun j => aliveAt lb j = false) (scanOrder lb)
                  <-> noneAlive lb).
  { rewrite <- dead_everywhere. by rewrite (scanOrder_perm lb Hc). }
  rewrite (getNextBackend_find lb Hc Hm).
  pose proof (find_first (aliveAt lb) (scanOrder lb)) as Hfind.
  destruct (List.find _ _) as [k|].
  - right. destruct Hfind as (pre & post & Horder & _ & Hk).
    split; [|by exists k].
    rewrite <- Hscan, Horder. intros Hall.
    apply Forall_app in Hall as [_ Hall].
    apply Forall_cons in Hall as [Hk' _]. congruence.
  - left. split; [by apply Hscan|done].
Qed.

(** X2.  With the cursor in range, [getNextBackend] returns [nil] exactly
    when no backend of the pool is alive: one live backend anywhere in the
    slice is enough for the call to return a live backend. *)
Theorem nil_iff_none_alive lb :
  cursorInRange lb -> fitsMemory lb ->
  (getNextBackend lb = Ok (None, lb) <-> noneAlive lb)
  /\ (~ noneAlive lb ->
      exists k, getNextBackend lb = Ok (Some k, afterServing k lb)
                /\ aliveAt lb k = true).
Proof.
  intros Hc Hm.
  destruct (getNextBackend_cases lb Hc Hm)
    as [[Hdead Hcall]|[Hlive (k & Hk & Hcall)]].
  - split; [done|]. intros Hlive. by destruct Hlive.
  - split.
    + split; [rewrite Hcall; discriminate|done].
    + intros _. by exists k.
Qed.

Lemma nil_iff_none_alive_witness :
  let lb := pool3 false true false 2 in
  (cursorInRange lb /\ fitsMemory lb)
  /\ ~ noneAlive lb
  /\ exists k, getNextBackend lb = Ok (Some k, afterServing k lb)
               /\ aliveAt lb k = true.
Proof.
  assert (H1 : cursorInRange (pool3 false true false 2))
    by (unfold cursorInRange, len; cbn; lia).
  assert (H2 : fitsMemory (pool3 false true false 2))
    by (unfold fitsMemory, maxBackends, len; cbn; lia).
  assert (H3 : ~ noneAlive (pool3 false true false 2)).
  { intros Hnone. apply Forall_cons in Hnone as [_ Hnone].
    apply Forall_cons in Hnone as [Hb _]. discriminate Hb. }
  destruct (nil_iff_none_alive (pool3 false true false 2) H1 H2) as [_ Hlive].
  split; [done|]. split; [done|]. exact (Hlive H3).
Defined.

(** ** Rotation among the live backends *)

Lemma length_cyclicOrder c n : length (cyclicOrder c n) = n.
Proof. unfold cyclicOrder. by rewrite length_fmap, length_seq. Qed.

Lemma cyclicOrder_lookup c n t :
  (t < n)%nat -> cyclicOrder c n !! t = Some ((c + t) mod n)%nat.
Proof.
  intros Ht. unfold cyclicOrder.
  by rewrite list_lookup_fmap, lookup_seq_lt.
Qed.

(** Starting [i] places further on turns the order by [i] places. *)
Lemma cyclicOrder_shift c n i :
  (i <= n)%nat ->
  cyclicOrder ((c + i) mod n) n =
  drop i (cyclicOrder c n) ++ take i (cyclicOrder c n).
Proof.
  intros Hi. apply list_eq. intros t.
  destruct (decide (t < n)%nat) as [Ht|Ht].
  - rewrite cyclicOrder_lookup by done.
    rewrite Nat.Div0.add_mod_idemp_l.
    destruct (decide (t < n - i)%nat) as [Hlow|Hhigh].
    + rewrite lookup_app_l by (rewrite length_drop, length_cyclicOrder; lia).
      rewrite lookup_drop, cyclicOrder_lookup by lia.
      by rewrite Nat.add_assoc.
    + rewrite lookup_app_r by (rewrite length_drop, length_cyclicOrder; lia).
      rewrite length_drop, length_cyclicOrder.
      rewrite lookup_take_lt, cyclicOrder_lookup by lia.
      f_equal.
      replace (c + i + t)%nat with (c + (t - (n - i)) + 1 * n)%nat by lia.
      by rewrite Nat.Div0.mod_add.
  - rewrite !lookup_ge_None_2; [done|..].
    + rewrite length_app, length_drop, length_take, length_cyclicOrder. lia.
    + rewrite length_cyclicOrder. lia.
Qed.

(** Once [k] has been served, the scan starts with what came after [k] and
    ends with [k]. *)
Lemma scanOrder_afterServing lb pre k post :
  cursorInRange lb -> scanOrder lb = pre ++ k :: post ->
  scanOrder (afterServing k lb) = post ++ pre ++ [k].
Proof.
  intros Hc Horder. destruct (cursor_as_nat lb Hc) as [_ Hlt].
  set (n := length (backends lb)) in *.
  set (c := Z.to_nat (current lb)) in *.
  assert (Hlen : (length pre + S (length post) = n)%nat).
  { rewrite <- (length_cyclicOrder c n). fold n c in Horder.
    unfold scanOrder in Horder. fold n c in Horder.
    rewrite Horder, length_app. done. }
  assert (Hk : k = ((c + length pre) mod n)%nat).
  { pose proof (cyclicOrder_lookup c n (length pre) ltac:(lia)) as Hl.
    unfold scanOrder in Horder. fold n c in Horder.
    rewrite Horder, list_lookup_middle in Hl by done. congruence. }
  unfold scanOrder, afterServing. cbn [backends current set_current].
  fold n. rewrite Nat2Z.id, Hk, Nat.Div0.add_mod_idemp_l.
  replace (c + length pre + 1)%nat with (c + S (length pre))%nat by lia.
  rewrite cyclicOrder_shift by lia.
  unfold scanOrder in Horder. fold n c in Horder. rewrite Horder, <- Hk.
  replace (pre ++ k :: post) with ((pre ++ [k]) ++ post)
    by by rewrite <- app_assoc.
  rewrite drop_app_length', take_app_length'
    by (rewrite length_app; cbn; lia).
  done.
Qed.

Lemma find_after_dead {A} (p : A -> bool) pre x post :
  Forall (fun y => p y = false) pre -> p x = true ->
  List.find p (pre ++ x :: post) = Some x.
Proof.
  intros Hpre Hx. induction Hpre as [|y pre Hy _ IH]; cbn [app List.find].
  - by rewrite Hx.
  - by rewrite Hy.
Qed.

Lemma filter_dead {A} (p : A -> bool) l :
  Forall (fun y => p y = false) l -> List.filter p l = [].
Proof.
  induction 1 as [|y l Hy _ IH]; [done|]. cbn. by rewrite Hy.
Qed.

Lemma Permutation_List_filter {A} (p : A -> bool) l1 l2 :
  l1 ≡ₚ l2 -> List.filter p l1 ≡ₚ List.filter p l2.
Proof.
  induction 1 as [|x l1 l2 _ IH|x y l|l1 l2 l3 _ IH1 _ IH2]; cbn.
  - done.
  - destruct (p x); by rewrite IH.
  - destruct (p x), (p y); try done. apply perm_swap.
  - by rewrite IH1.
Qed.

Lemma selectMany_S n lb :
  selectMany (S n) lb =
  ((observe lb).1 :: (selectMany n (observe lb).2).1,
   (selectMany n (observe lb).2).2).
Proof.
  unfold selectMany. cbn [replicate run].
  destruct (observe lb) as [o lb']. cbn [fst snd].
  by destruct (run (replicate n Select) lb').
Qed.

Lemma afterServing_in_range k lb :
  cursorInRange lb -> cursorInRange (afterServing k lb).
Proof.
  unfold cursorInRange, afterServing, len. cbn [backends current set_current].
  intros Hc.
  pose proof (Nat.mod_upper_bound (k + 1) (length (backends lb))). lia.
Qed.

(** As long as live backends lie ahead in the scan order, each call serves
    the next of them. *)
Lemma selectMany_live t : forall lb ahead behind,
  cursorInRange lb -> fitsMemory lb ->
  scanOrder lb = ahead ++ behind ->
  length (List.filter (aliveAt lb) ahead) = t ->
  (selectMany t lb).1 =
  served (length (backends lb)) <$> List.filter (aliveAt lb) ahead.
Proof.
  induction t as [|t IH]; intros lb ahead behind Hc Hm Horder Hlen.
  - by destruct (List.filter (aliveAt lb) ahead).
  - pose proof (find_first (aliveAt lb) ahead) as Hfind.
    destruct (List.find (aliveAt lb) ahead) as [k|];
      [|by rewrite filter_dead in Hlen].
    destruct Hfind as (pre & post & -> & Hpre & Hk).
    rewrite List.filter_app, (filter_dead _ pre) in Hlen |- * by done.
    cbn [app List.filter] in Hlen |- *. rewrite Hk in Hlen |- *.
    rewrite <- app_assoc in Horder. cbn [app] in Horder.
    assert (Hcall : getNextBackend lb = Ok (Some k, afterServing k lb)).
    { rewrite (getNextBackend_find lb Hc Hm), Horder.
      by rewrite find_after_dead. }
    rewrite selectMany_S. unfold observe. rewrite Hcall. cbn [fst snd].
    cbn [fmap list_fmap]. f_equal.
    apply (IH (afterServing k lb) post (behind ++ pre ++ [k])).
    + by apply afterServing_in_range.
    + done.
    + rewrite (scanOrder_afterServing lb pre k (post ++ behind)) by done.
      by rewrite <- app_assoc.
    + cbn in Hlen. by injection Hlen.
Qed.

(** X3.  Strict rotation among the live backends.  With the flags left
    alone and [m] backends alive, [m] consecutive [getNextBackend] calls
    return exactly the live backends, each once, in the order the scan meets
    them from the cursor; dead backends are passed over without costing a
    turn.  Each call leaves the cursor just past the backend it returned. *)
Theorem round_robin_among_live lb :
  cursorInRange lb -> fitsMemory lb ->
  let n := length (backends lb) in
  (selectMany (length (liveOrder lb)) lb).1 = served n <$> liveOrder lb
  /\ liveOrder lb ≡ₚ List.filter (aliveAt lb) (seq 0 n).
Proof.
  intros Hc Hm n. split.
  - apply (selectMany_live _ lb (scanOrder lb) []); try done.
    by rewrite app_nil_r.
  - apply Permutation_List_filter. by apply scanOrder_perm.
Qed.

Lemma round_robin_among_live_witness :
  let lb := pool3 true false true 2 in
  (cursorInRange lb /\ fitsMemory lb)
  /\ (selectMany 2 lb).1 = [served 3 2; served 3 0]%nat
  /\ [2; 0]%nat ≡ₚ [0; 2]%nat.
Proof.
  assert (H1 : cursorInRange (pool3 true false true 2))
    by (unfold cursorInRange, len; cbn; lia).
  assert (H2 : fitsMemory (pool3 true false true 2))
    by (unfold fitsMemory, maxBackends, len; cbn; lia).
  split; [done|].
  exact (round_robin_among_live (pool3 true false true 2) H1 H2).
Defined.

Lemma aliveAt_setAliveAt k alive lb j :
  aliveAt (setAliveAt k alive lb) j =
  if decide (k = j) then
    if decide (j < length (backends lb))%nat then alive else false
  else aliveAt lb j.
Proof.
  unfold aliveAt, setAliveAt. cbn [backends].
  destruct (decide (k = j)) as [->|Hne].
  - rewrite list_lookup_alter_eq.
    destruct (decide (j < length (backends lb))%nat) as [Hj|Hj].
    + by destruct (lookup_lt_is_Some_2 _ _ Hj) as [b ->].
    + by rewrite lookup_ge_None_2 by lia.
  - by rewrite list_lookup_alter_ne.
Qed.

(** X4.  Recovery takes effect at once.  In a pool where no backend is
    alive, once [SetAlive(true)] has been called on the backend at [k], the
    very next [getNextBackend] returns that backend, wherever the cursor
    was, and leaves the cursor just past it. *)
Theorem revived_backend_served_next lb k :
  cursorInRange lb -> fitsMemory lb -> noneAlive lb ->
  (k < length (backends lb))%nat ->
  getNextBackend (setAliveAt k true lb) =
    Ok (Some k, afterServing k (setAliveAt k true lb)).
Proof.
  intros Hc Hm Hdead Hk.
  set (lb' := setAliveAt k true lb).
  assert (Hc' : cursorInRange lb') by by apply setAliveAt_in_range.
  assert (Hm' : fitsMemory lb') by by apply setAliveAt_fitsMemory.
  assert (Hn : length (backends lb') = length (backends lb)).
  { unfold lb', setAliveAt. cbn [backends]. apply length_alter. }
  assert (Hlive : forall j, aliveAt lb' j = true -> j = k).
  { intros j. unfold lb'. rewrite aliveAt_setAliveAt.
    destruct (decide (k = j)) as [->|_]; [done|].
    apply dead_everywhere in Hdead. rewrite Forall_forall in Hdead.
    unfold aliveAt at 1. destruct (backends lb !! j) as [b|] eqn:Hb; [|done].
    assert (Hj : (j < length (backends lb))%nat) by by eapply lookup_lt_Some.
    specialize (Hdead j). unfold aliveAt in Hdead. rewrite Hb in Hdead.
    intros Ha. rewrite Hdead in Ha; [done|]. apply elem_of_seq. lia. }
  rewrite (getNextBackend_find lb' Hc' Hm').
  pose proof (find_first (aliveAt lb') (scanOrder lb')) as Hfind.
  destruct (List.find _ _) as [j|].
  - destruct Hfind as (_ & _ & _ & _ & Hj). by rewrite (Hlive j Hj).
  - rewrite (scanOrder_perm lb' Hc'), Hn, Forall_forall in Hfind.
    specialize (Hfind k). unfold lb' in Hfind.
    rewrite aliveAt_setAliveAt in Hfind.
    rewrite !decide_True in Hfind by done.
    discriminate Hfind. apply elem_of_seq. lia.
Qed.

Lemma revived_backend_served_next_witness :
  let lb := pool3 false false false 2 in
  (cursorInRange lb /\ fitsMemory lb /\ noneAlive lb /\
   (1 < length (backends lb))%nat)
  /\ getNextBackend (setAliveAt 1 true lb) =
     Ok (Some 1%nat, pool3 false true false 2).
Proof.
  assert (H1 : cursorInRange (pool3 false false false 2))
    by (unfold cursorInRange, len; cbn; lia).
  assert (H2 : fitsMemory (pool3 false false false 2))
    by (unfold fitsMemory, maxBackends, len; cbn; lia).
  assert (H3 : noneAlive (pool3 false false false 2)) by (repeat constructor).
  assert (H4 : (1 < length (backends (pool3 false false false 2)))%nat)
    by (cbn; lia).
  split; [done|].
  exact (revived_backend_served_next (pool3 false false false 2) 1 H1 H2 H3 H4).
Defined.

(** ** What the operations leave alone *)

Lemma members_setAliveAt k alive lb :
  members (setAliveAt k alive lb) = members lb.
Proof.
  unfold members, setAliveAt. cbn [backends]. apply list_eq. intros j.
  rewrite !list_lookup_fmap, list_lookup_alter.
  destruct (decide (k = j)) as [->|_]; [|done].
  by destruct (backends lb !! j).
Qed.

Lemma checkBackend_Proxy g b : Proxy (checkBackend g b).1.2 = Proxy b.
Proof.
  destruct g as [err resp|status]; cbn; [done|].
  by destruct (negb (status =? StatusOK)).
Qed.

Lemma members_healthCheck http_Get lb :
  members (healthCheck http_Get lb).2 = members lb.
Proof.
  unfold members. rewrite healthCheck_backends. apply list_eq. intros j.
  rewrite !list_lookup_fmap, list_lookup_imap.
  destruct (backends lb !! j) as [b|]; [|done]. cbn.
  by rewrite checkBackend_URL, checkBackend_Proxy.
Qed.

Lemma members_run ops : forall lb, members (run ops lb).2 = members lb.
Proof.
  induction ops as [|[|k alive] ops IH]; intros lb; cbn [run]; [done|..].
  - pose proof (observe_backends lb) as Hsame.
    destruct (observe lb) as [o lb']. cbn [snd] in Hsame.
    specialize (IH lb'). destruct (run ops lb') as [os lb'']. cbn [snd] in *.
    rewrite IH. unfold members. by rewrite Hsame.
  - by rewrite IH, members_setAliveAt.
Qed.

(** X5.  Pool membership is fixed at construction.  No sequence of
    [getNextBackend] calls and [SetAlive] writes, and no health-check cycle,
    adds, removes, reorders or re-addresses a backend or swaps its proxy:
    only flags and the cursor are ever written.  This holds whatever the
    cursor and the probe results are, the calls that panic included. *)
Theorem membership_is_static ops http_Get lb :
  members (run ops lb).2 = members lb
  /\ members (healthCheck http_Get lb).2 = members lb
  /\ length (backends (run ops (healthCheck http_Get lb).2).2)
     = length (backends lb).
Proof.
  split; [apply members_run|]. split; [apply members_healthCheck|].
  pose proof (members_run ops (healthCheck http_Get lb).2) as Hrun.
  rewrite members_healthCheck in Hrun.
  apply (f_equal length) in Hrun. unfold members in Hrun.
  by rewrite !length_fmap in Hrun.
Qed.

(** X6.  [SetAlive] is a plain write of one flag: [IsAlive] on the same
    backend then reads the value written, the flag of every other backend
    reads as before, the cursor is not touched, and of two writes to the
    same backend the later one wins (so repeating a write changes
    nothing). *)
Theorem SetAlive_writes_one_flag lb k alive alive' :
  (forall j, aliveAt (setAliveAt k alive lb) j =
             if decide (k = j)
             then (if decide (j < length (backends lb))%nat
                   then alive else false)
             else aliveAt lb j)
  /\ (forall b, IsAlive (SetAlive alive b) = alive)
  /\ current (setAliveAt k alive lb) = current lb
  /\ setAliveAt k alive (setAliveAt k alive' lb) = setAliveAt k alive lb.
Proof.
  split; [intros j; apply aliveAt_setAliveAt|]. split; [done|].
  split; [done|].
  unfold setAliveAt. cbn [backends current]. f_equal.
  apply list_eq. intros j.
  destruct (decide (k = j)) as [->|Hne].
  - rewrite !list_lookup_alter_eq. by destruct (backends lb !! j).
  - by rewrite !list_lookup_alter_ne.
Qed.

(** ** Requests *)

(** X7.  On a pool whose cursor is in range, [ServeHTTP] does not panic and
    changes nothing but the cursor.  When no backend is alive it answers 503
    with the fixed text, forwards to nobody and leaves the pool exactly as
    it was; otherwise it writes no answer of its own and forwards the
    request, unchanged, to exactly one backend, which is alive. *)
Theorem ServeHTTP_total elapsed r lb :
  cursorInRange lb -> fitsMemory lb ->
  exists evs lb',
    ServeHTTP elapsed r lb = Ok (evs, lb')
    /\ backends lb' = backends lb /\ cursorInRange lb'
    /\ (noneAlive lb ->
        lb' = lb /\ forwardedTo evs = [] /\
        answered evs = [(outageBody, StatusServiceUnavailable)])
    /\ (~ noneAlive lb ->
        answered evs = [] /\
        exists k, forwardedTo evs = [(k, r)] /\ aliveAt lb k = true).
Proof.
  intros Hc Hm. unfold ServeHTTP.
  destruct (getNextBackend_cases lb Hc Hm)
    as [[Hdead ->]|[Hlive (k & Hk & ->)]]; cbn [mbind result_bind].
  - eexists _, lb. split; [done|]. split; [done|]. split; [done|].
    split; [done|]. intros Hlive. by destruct Hlive.
  - unfold deref, afterServing. cbn [backends set_current].
    unfold aliveAt in Hk.
    destruct (backends lb !! k) as [b|] eqn:Hb; [|done].
    cbn [mbind result_bind]. eexists _, _. split; [done|].
    split; [done|]. split; [by apply (afterServing_in_range k lb)|].
    split; [intros Hdead; by destruct Hlive|].
    intros _. split; [done|]. exists k. split; [done|].
    unfold aliveAt. by rewrite Hb.
Qed.

Lemma ServeHTTP_total_witness :
  let lb := pool3 false true true 0 in
  (cursorInRange lb /\ fitsMemory lb)
  /\ exists evs lb',
       ServeHTTP 7 requestSample lb = Ok (evs, lb')
       /\ backends lb' = backends lb
       /\ forwardedTo evs = [(1%nat, requestSample)].
Proof.
  assert (H1 : cursorInRange (pool3 false true true 0))
    by (unfold cursorInRange, len; cbn; lia).
  assert (H2 : fitsMemory (pool3 false true true 0))
    by (unfold fitsMemory, maxBackends, len; cbn; lia).
  split; [done|].
  destruct (ServeHTTP_total 7 requestSample (pool3 false true true 0) H1 H2)
    as (evs & lb' & Hcall & Hbs & _).
  exists evs, lb'. split; [done|]. split; [done|].
  cbv in Hcall. injection Hcall as <- _. reflexivity.
Defined.

(** ** A fresh pool *)

Lemma List_filter_length_le {A} (p : A -> bool) l :
  (length (List.filter p l) <= length l)%nat.
Proof. induction l as [|x l IH]; cbn; [done|]. destruct (p x); cbn; lia. Qed.

Lemma foldl_addBackend_fresh url_Parse backendURLs : forall log bs,
  Forall (fun b => Alive b = true /\
                   url_Parse (URL b) = inl (target (Proxy b))) bs ->
  Forall (fun b => Alive b = true /\
                   url_Parse (URL b) = inl (target (Proxy b)))
         (foldl (addBackend url_Parse) (log, bs) backendURLs).2.
Proof.
  induction backendURLs as [|u us IH]; intros log bs Hbs; cbn [foldl];
    [done|].
  unfold addBackend at 2.
  destruct (url_Parse u) as [parsed|err] eqn:Hparse; apply IH; [|done].
  apply Forall_app. split; [done|]. by repeat constructor.
Qed.

Lemma foldl_addBackend_lines url_Parse backendURLs : forall log bs,
  length (foldl (addBackend url_Parse) (log, bs) backendURLs).1
  = (length log + length backendURLs)%nat.
Proof.
  induction backendURLs as [|u us IH]; intros log bs; cbn [foldl length];
    [cbn; lia|].
  unfold addBackend at 2.
  destruct (url_Parse u); rewrite IH, length_app; cbn; lia.
Qed.

(** X8.  [NewLoadBalancer] writes one log line per configured address and
    builds a pool no longer than the list; every backend of the fresh pool
    is alive (no probe has been made yet) and carries the proxy built from
    the parse of its own address. *)
Theorem NewLoadBalancer_fresh url_Parse backendURLs :
  let log := (NewLoadBalancer url_Parse backendURLs).1 in
  let lb := (NewLoadBalancer url_Parse backendURLs).2 in
  allAlive lb
  /\ Forall (fun b => url_Parse (URL b) = inl (target (Proxy b)))
            (backends lb)
  /\ length log = length backendURLs
  /\ (length (backends lb) <= length backendURLs)%nat.
Proof.
  cbn zeta.
  pose proof (foldl_addBackend_fresh url_Parse backendURLs [] []
                (Forall_nil_2 _)) as Hfresh.
  pose proof (foldl_addBackend_lines url_Parse backendURLs [] []) as Hlines.
  pose proof (NewLoadBalancer_urls url_Parse backendURLs) as Hurls.
  apply (f_equal length) in Hurls. rewrite length_fmap in Hurls.
  pose proof (List_filter_length_le (parses url_Parse) backendURLs) as Hle.
  unfold NewLoadBalancer in *.
  destruct (foldl _ _ _) as [log bs]. cbn [fst snd backends] in *.
  split; [|split; [|split; [done|lia]]].
  - unfold allAlive. cbn [backends].
    eapply Forall_impl; [exact Hfresh|]. by intros b [? ?].
  - eapply Forall_impl; [exact Hfresh|]. by intros b [? ?].
Qed.

(** X9.  The first request after construction goes to the first configured
    address that parses: on the fresh pool the cursor is in range, and the
    first [getNextBackend] returns position 0, which holds that address, and
    moves the cursor past it. *)
Theorem first_call_serves_first_address url_Parse backendURLs u rest :
  List.filter (parses url_Parse) backendURLs = u :: rest ->
  len backendURLs <= maxBackends ->
  let lb := (NewLoadBalancer url_Parse backendURLs).2 in
  cursorInRange lb
  /\ URL <$> backends lb !! 0%nat = Some u
  /\ getNextBackend lb = Ok (Some 0%nat, afterServing 0 lb).
Proof.
  intros Hgood Hfit lb.
  pose proof (NewLoadBalancer_urls url_Parse backendURLs) as Hurls.
  fold lb in Hurls. rewrite Hgood in Hurls.
  pose proof (foldl_addBackend_fresh url_Parse backendURLs [] []
                (Forall_nil_2 _)) as Hfresh.
  pose proof (List_filter_length_le (parses url_Parse) backendURLs) as Hle.
  assert (Hcur : current lb = 0).
  { unfold lb, NewLoadBalancer. by destruct (foldl _ _ _). }
  assert (Hbs : backends lb
                = (foldl (addBackend url_Parse) ([], []) backendURLs).2).
  { unfold lb, NewLoadBalancer. by destruct (foldl _ _ _). }
  rewrite <- Hbs in Hfresh.
  assert (Hlen : length (backends lb) = S (length rest)).
  { apply (f_equal length) in Hurls. by rewrite length_fmap in Hurls. }
  assert (Hc : cursorInRange lb) by (unfold cursorInRange, len; lia).
  assert (Hm : fitsMemory lb).
  { unfold fitsMemory, len in *. rewrite Hgood in Hle. cbn in Hle. lia. }
  destruct (lookup_lt_is_Some_2 (backends lb) 0) as [b Hb0]; [lia|].
  assert (Ha : Alive b = true).
  { rewrite Forall_lookup in Hfresh. by destruct (Hfresh _ _ Hb0). }
  split; [done|]. split.
  { apply (f_equal (fun l => l !! 0%nat)) in Hurls.
    by rewrite list_lookup_fmap in Hurls. }
  rewrite (getNextBackend_at_cursor lb b Hc Hm);
    [|by rewrite Hcur|done].
  rewrite Hcur. unfold afterServing, len. cbn [Z.to_nat Nat.add].
  change (0 + 1) with (Z.of_nat 1). by rewrite <- Nat2Z.inj_mod.
Qed.

Lemma first_call_serves_first_address_witness :
  let urls := [":8080"; "http://localhost:8081"; "http://localhost:8082"] in
  let lb := (NewLoadBalancer parseSample urls).2 in
  (List.filter (parses parseSample) urls
   = ["http://localhost:8081"; "http://localhost:8082"]
   /\ len urls <= maxBackends)
  /\ cursorInRange lb
  /\ URL <$> backends lb !! 0%nat = Some "http://localhost:8081"
  /\ getNextBackend lb = Ok (Some 0%nat, afterServing 0 lb).
Proof.
  assert (H2 : len [":8080"; "http://localhost:8081"; "http://localhost:8082"]
               <= maxBackends)
    by (unfold len, maxBackends; cbn; lia).
  split; [done|].
  exact (first_call_serves_first_address parseSample
           [":8080"; "http://localhost:8081"; "http://localhost:8082"]
           "http://localhost:8081" ["http://localhost:8082"] eq_refl H2).
Defined.

(** ** More on health checks *)

Lemma checkBackend_probed g b : probed (checkBackend g b).1.1 = [URL b].
Proof.
  destruct g as [err [|]|status]; cbn; [done..|].
  destruct (status =? StatusOK); cbn; [|done].
  by destruct (IsAlive b).
Qed.

Lemma checkFrom_probed http_Get bs : forall i aliveCount,
  probed (checkFrom http_Get i bs aliveCount).1.1 = URL <$> bs.
Proof.
  induction bs as [|b bs IH]; intros i n; [done|].
  rewrite checkFrom_cons. cbn [fst snd]. unfold probed.
  rewrite omap_app. fold (probed (checkBackend (http_Get i (URL b)) b).1.1).
  rewrite checkBackend_probed. cbn [app fmap list_fmap]. f_equal. apply IH.
Qed.

(** X10.  A health-check cycle probes every backend of the pool exactly
    once, at its own address, in pool order, whatever the probes return: a
    failed probe does not end the cycle or skip a backend. *)
Theorem healthCheck_probes_each_once http_Get lb :
  probed (healthCheck http_Get lb).1 = URL <$> backends lb.
Proof.
  unfold healthCheck.
  pose proof (checkFrom_probed http_Get (backends lb) 0 0) as Hp.
  destruct (checkFrom _ _ _ _) as [[evs bs] n]. cbn [fst snd] in *.
  unfold probed in *. rewrite !omap_app, Hp. cbn. by rewrite app_nil_r.
Qed.

Lemma checkBackend_up g b :
  (checkBackend g b).2 = probeSucceeded g /\
  Alive (checkBackend g b).1.2 = probeSucceeded g.
Proof.
  destruct g as [err resp|status]; cbn; [done|].
  by destruct (status =? StatusOK).
Qed.

(** The counter of the cycle counts the backends it leaves alive. *)
Lemma checkFrom_count http_Get bs : forall i aliveCount,
  0 <= aliveCount -> aliveCount + len bs <= GoInt.MaxInt ->
  (checkFrom http_Get i bs aliveCount).2 =
  aliveCount
  + Z.of_nat (length (List.filter Alive
                        (checkFrom http_Get i bs aliveCount).1.2)).
Proof.
  induction bs as [|b bs IH]; intros i n Hn Hmax; [cbn; lia|].
  rewrite checkFrom_cons. cbn [fst snd List.filter].
  destruct (checkBackend_up (http_Get i (URL b)) b) as [-> ->].
  unfold len in *. cbn [length] in Hmax.
  destruct (probeSucceeded _).
  - unfold GoInt.add. rewrite wrap_small by (unfold GoInt.MinInt; lia).
    rewrite IH by lia. cbn [length]. lia.
  - rewrite IH by lia. lia.
Qed.

(** X11.  The closing line of a health-check cycle reports the number of
    backends the cycle leaves alive, out of the number of backends of the
    pool. *)
Theorem healthCheck_summary http_Get lb :
  fitsMemory lb ->
  last (healthCheck http_Get lb).1 =
  Some (Printf (InfoCheckComplete
                  (Z.of_nat (aliveTotal (healthCheck http_Get lb).2))
                  (len (backends lb)))).
Proof.
  intros Hm. unfold healthCheck, aliveTotal.
  pose proof (checkFrom_count http_Get (backends lb) 0 0) as Hcount.
  destruct (checkFrom _ _ _ _) as [[evs bs] n]. cbn [fst snd backends] in *.
  rewrite !app_assoc, last_snoc. do 3 f_equal.
  rewrite Hcount; [lia|lia|].
  unfold fitsMemory, maxBackends in Hm. unfold GoInt.MaxInt. lia.
Qed.

Lemma healthCheck_summary_witness :
  let lb := pool3 true false true 0 in
  fitsMemory lb
  /\ last (healthCheck mixedProbes lb).1 = Some (Printf (InfoCheckComplete 1 3)).
Proof.
  assert (H : fitsMemory (pool3 true false true 0))
    by (unfold fitsMemory, maxBackends, len; cbn; lia).
  split; [done|].
  exact (healthCheck_summary mixedProbes (pool3 true false true 0) H).
Defined.

Lemma healthCheck_current http_Get lb :
  current (healthCheck http_Get lb).2 = current lb.
Proof. unfold healthCheck. by destruct (checkFrom _ _ _ _) as [[? ?] ?]. Qed.

Lemma healthCheck_recoveries http_Get lb :
  count isRecovery (healthCheck http_Get lb).1 =
  sum_list (imap (fun k b =>
              if probeSucceeded (http_Get k (URL b)) && negb (Alive b)
              then 1%nat else 0%nat) (backends lb)).
Proof.
  unfold healthCheck.
  pose proof (checkFrom_recoveries http_Get (backends lb) 0 0) as Hrec.
  destruct (checkFrom _ _ _ _) as [[evs bs] n]. cbn [fst snd] in *.
  rewrite !count_app, Hrec. cbn. lia.
Qed.

Lemma sum_list_zero l : Forall (fun x => x = 0%nat) l -> sum_list l = 0%nat.
Proof. induction 1 as [|x l -> _ IH]; [done|]. cbn. exact IH. Qed.

(** X12.  A health-check cycle settles the pool: a second cycle that gets
    the same answers from the network leaves the pool exactly as the first
    one left it, and logs no recovery. *)
Theorem healthCheck_settles http_Get lb :
  let lb' := (healthCheck http_Get lb).2 in
  (healthCheck http_Get lb').2 = lb'
  /\ count isRecovery (healthCheck http_Get lb').1 = 0%nat.
Proof.
  cbn zeta.
  assert (Hlook : forall k b', backends (healthCheck http_Get lb).2 !! k
                               = Some b' ->
            (checkBackend (http_Get k (URL b')) b').1.2 = b' /\
            Alive b' = probeSucceeded (http_Get k (URL b'))).
  { intros k b'. rewrite healthCheck_backends, list_lookup_imap.
    destruct (backends lb !! k) as [b|]; [|done]. cbn. intros [= <-].
    rewrite checkBackend_URL.
    destruct (checkBackend_up (http_Get k (URL b)) b) as [_ Ha].
    split; [|done].
    generalize dependent (http_Get k (URL b)). intros g Ha.
    destruct g as [err resp|status]; cbn in *; [done|].
    by destruct (status =? StatusOK). }
  split.
  - set (lb' := (healthCheck http_Get lb).2) in *.
    assert (Hbs : backends (healthCheck http_Get lb').2 = backends lb').
    { rewrite healthCheck_backends. apply list_eq. intros k.
      rewrite list_lookup_imap.
      destruct (backends lb' !! k) as [b'|] eqn:Hb'; [|done]. cbn.
      by destruct (Hlook k b' Hb') as [-> _]. }
    pose proof (healthCheck_current http_Get lb') as Hcur.
    destruct (healthCheck http_Get lb').2 as [bs c], lb' as [bs' c'].
    cbn in *. by subst.
  - rewrite healthCheck_recoveries. apply sum_list_zero.
    apply Forall_lookup. intros k x. rewrite list_lookup_imap.
    destruct (backends (healthCheck http_Get lb).2 !! k) as [b'|] eqn:Hb';
      [|done].
    cbn. intros [= <-]. destruct (Hlook k b' Hb') as [_ ->].
    by destruct (probeSucceeded _).
Qed.

(** ** Statistics *)

Lemma foldl_alive_count bs : forall n,
  0 <= n -> n + len bs <= GoInt.MaxInt ->
  foldl (fun n backend => if IsAlive backend then GoInt.add n 1 else n) n bs
  = n + Z.of_nat (length (List.filter Alive bs)).
Proof.
  induction bs as [|b bs IH]; intros n Hn Hmax; [cbn; lia|].
  unfold len in *. cbn [length] in Hmax. cbn [foldl List.filter].
  unfold IsAlive. destruct (Alive b).
  - unfold GoInt.add. rewrite wrap_small by (unfold GoInt.MinInt; lia).
    rewrite IH by lia. cbn [length]. lia.
  - rewrite IH by lia. lia.
Qed.

(** X13.  [getStats] writes one line with the size of the pool, the number
    of backends whose flag is set, and the rest as down; the two counts add
    up to the size.  Right after a health-check cycle the alive count is the
    one the cycle reported. *)
Theorem getStats_counts http_Get lb :
  fitsMemory lb ->
  let total := len (backends lb) in
  let alive := Z.of_nat (aliveTotal lb) in
  getStats lb = [Printf (StatsLine total alive (total - alive))]
  /\ 0 <= alive <= total
  /\ exists alive',
       getStats (healthCheck http_Get lb).2
       = [Printf (StatsLine total alive' (total - alive'))]
       /\ last (healthCheck http_Get lb).1
          = Some (Printf (InfoCheckComplete alive' total)).
Proof.
  intros Hm total alive.
  assert (Hstats : forall lb0, fitsMemory lb0 ->
    getStats lb0 =
      [Printf (StatsLine (len (backends lb0)) (Z.of_nat (aliveTotal lb0))
                 (len (backends lb0) - Z.of_nat (aliveTotal lb0)))]
    /\ 0 <= Z.of_nat (aliveTotal lb0) <= len (backends lb0)).
  { intros lb0 Hm0. unfold getStats, aliveTotal.
    pose proof (List_filter_length_le Alive (backends lb0)) as Hle.
    unfold fitsMemory, maxBackends in Hm0.
    rewrite foldl_alive_count; [|lia|unfold GoInt.MaxInt; lia].
    rewrite Z.add_0_l.
    rewrite wrap_small
      by (unfold GoInt.MinInt, GoInt.MaxInt, len in *; lia).
    split; [done|]. unfold len. lia. }
  destruct (Hstats lb Hm) as [Hline Hrange].
  split; [done|]. split; [done|].
  assert (Hlen : len (backends (healthCheck http_Get lb).2) = total).
  { unfold len, total. rewrite healthCheck_backends. by rewrite length_imap. }
  assert (Hm' : fitsMemory (healthCheck http_Get lb).2).
  { unfold fitsMemory. by rewrite Hlen. }
  destruct (Hstats _ Hm') as [Hline' _]. rewrite Hlen in Hline'.
  eexists. split; [exact Hline'|].
  unfold healthCheck, aliveTotal.
  pose proof (checkFrom_count http_Get (backends lb) 0 0) as Hcount.
  destruct (checkFrom _ _ _ _) as [[evs bs] n]. cbn [fst snd backends] in *.
  rewrite !app_assoc, last_snoc. do 3 f_equal.
  rewrite Hcount; [lia|lia|].
  unfold fitsMemory, maxBackends in Hm. unfold GoInt.MaxInt. lia.
Qed.

Lemma getStats_counts_witness :
  let lb := pool3 true false true 1 in
  fitsMemory lb
  /\ getStats lb = [Printf (StatsLine 3 2 1)]
  /\ getStats (healthCheck mixedProbes lb).2 = [Printf (StatsLine 3 1 2)].
Proof.
  assert (H : fitsMemory (pool3 true false true 1))
    by (unfold fitsMemory, maxBackends, len; cbn; lia).
  destruct (getStats_counts mixedProbes (pool3 true false true 1) H)
    as (Hline & _ & _).
  split; [done|]. split; [exact Hline|reflexivity].
Defined.

(** ** More on start-up *)

Lemma foldl_addBackend_probed url_Parse backendURLs : forall log bs,
  probed log = [] ->
  probed (foldl (addBackend url_Parse) (log, bs) backendURLs).1 = [].
Proof.
  induction backendURLs as [|u us IH]; intros log bs Hlog; cbn [foldl];
    [done|].
  unfold addBackend at 2.
  destruct (url_Parse u); apply IH; unfold probed in *;
    by rewrite omap_app, Hlog.
Qed.

Lemma NewLoadBalancer_probed url_Parse backendURLs :
  probed (NewLoadBalancer url_Parse backendURLs).1 = [].
Proof.
  unfold NewLoadBalancer.
  pose proof (foldl_addBackend_probed url_Parse backendURLs [] [] eq_refl).
  by destruct (foldl _ _ _).
Qed.

Lemma probed_app evs1 evs2 : probed (evs1 ++ evs2) = probed evs1 ++ probed evs2.
Proof. unfold probed. apply omap_app. Qed.

Lemma healthCheck_probed http_Get lb :
  probed (healthCheck http_Get lb).1 = URL <$> backends lb.
Proof.
  unfold healthCheck.
  pose proof (checkFrom_probed http_Get (backends lb) 0 0) as Hp.
  destruct (checkFrom _ _ _ _) as [[evs bs] n]. cbn [fst snd] in *.
  rewrite !probed_app, Hp. cbn. by rewrite app_nil_r.
Qed.

Lemma healthCheck_flags http_Get lb :
  Alive <$> backends (healthCheck http_Get lb).2 =
  imap (fun k u => probeSucceeded (http_Get k u)) (URL <$> backends lb).
Proof.
  rewrite healthCheck_backends. apply list_eq. intros k.
  rewrite list_lookup_fmap, !list_lookup_imap, list_lookup_fmap.
  destruct (backends lb !! k) as [b|]; [|done]. cbn.
  by destruct (checkBackend_up (http_Get k (URL b)) b) as [_ ->].
Qed.

(** ** The fixed three-backend balancer *)

Lemma Fixed_handler_step r c :
  0 <= c < 3 ->
  Fixed.forwarded (Fixed.handler r c).1
  = [(nth (Z.to_nat c) Fixed.proxies Fixed.proxy3, r)]
  /\ (Fixed.handler r c).2 = (c + 1) mod 3.
Proof.
  intros Hc. assert (Hcase : c = 0 \/ c = 1 \/ c = 2) by lia.
  by destruct Hcase as [-> | [-> | ->]].
Qed.

Lemma Fixed_serve_cons r rs c :
  Fixed.serve (r :: rs) c =
  ((Fixed.handler r c).1 ++ (Fixed.serve rs (Fixed.handler r c).2).1,
   (Fixed.serve rs (Fixed.handler r c).2).2).
Proof.
  cbn [Fixed.serve]. destruct (Fixed.handler r c) as [evs c']. cbn [fst snd].
  by destruct (Fixed.serve rs c').
Qed.

(** X16.  The fixed balancer deals requests out in strict rotation over its
    three proxies: counting from a counter [c] in [0, 3), request number [i]
    is handed, unchanged, to proxy number [(c + i) mod 3] (8081, 8082, 8083),
    every request is handed to exactly one proxy, and the counter stays in
    [0, 3).  [main] starts the counter at 0. *)
Theorem fixed_rotation rs c :
  0 <= c < 3 ->
  Fixed.forwarded (Fixed.serve rs c).1
  = imap (fun i r =>
            (nth ((Z.to_nat c + i) mod 3) Fixed.proxies Fixed.proxy3, r)) rs
  /\ (Fixed.serve rs c).2 = (c + len rs) mod 3
  /\ 0 <= (Fixed.serve rs c).2 < 3
  /\ Fixed.main.2 = 0.
Proof.
  revert c. induction rs as [|r rs IH]; intros c Hc.
  - cbn. rewrite Z.add_0_r, Z.mod_small by done. done.
  - rewrite Fixed_serve_cons. cbn [fst snd].
    destruct (Fixed_handler_step r c Hc) as [Hfwd ->].
    assert (Hc' : 0 <= (c + 1) mod 3 < 3) by (apply Z.mod_pos_bound; lia).
    destruct (IH _ Hc') as (IHfwd & -> & IHrange & _).
    unfold Fixed.forwarded in *. rewrite omap_app, Hfwd, IHfwd.
    split; [|split; [|split; [apply Z.mod_pos_bound; lia|done]]].
    + cbn [imap app]. rewrite Nat.add_0_r.
      rewrite (Nat.mod_small (Z.to_nat c)) by lia. f_equal.
      apply imap_ext. intros i r' _. cbn [compose]. do 2 f_equal.
      replace (Z.to_nat ((c + 1) mod 3)) with ((Z.to_nat c + 1) mod 3)%nat.
      * rewrite Nat.Div0.add_mod_idemp_l. f_equal. lia.
      * assert (Hcase : c = 0 \/ c = 1 \/ c = 2) by lia.
        by destruct Hcase as [-> | [-> | ->]].
    + rewrite Zplus_mod_idemp_l. f_equal. unfold len. cbn [length]. lia.
Qed.

Lemma fixed_rotation_witness :
  let r := requestSample in
  0 <= 1 < 3
  /\ Fixed.forwarded (Fixed.serve [r; r; r; r] 1).1
     = [(Fixed.proxy2, r); (Fixed.proxy3, r); (Fixed.proxy1, r);
        (Fixed.proxy2, r)]
  /\ (Fixed.serve [r; r; r; r] 1).2 = 2.
Proof.
  assert (H : 0 <= 1 < 3) by lia.
  destruct (fixed_rotation [requestSample; requestSample; requestSample;
                            requestSample] 1 H) as (Hfwd & Hcur & _).
  split; [done|]. split; [exact Hfwd|exact Hcur].
Defined.

Lemma ServeHTTP_pool3 elapsed r c :
  0 <= c < 3 ->
  exists evs,
    ServeHTTP elapsed r (pool3 true true true c)
    = Ok (evs, pool3 true true true ((c + 1) mod 3))
    /\ proxied evs = [(nth (Z.to_nat c) Fixed.proxies Fixed.proxy3, r)]
    /\ answered evs = [].
Proof.
  intros Hc.
  assert (Hcase : c = 0 \/ c = 1 \/ c = 2) by lia.
  destruct Hcase as [-> | [-> | ->]]; by eexists.
Qed.

(** X17.  With its three backends at the addresses of the fixed balancer
    and all of them alive, the health-checked balancer serves any sequence
    of requests, taken one after the other, as the fixed one does: the same
    requests go to the same proxies in the same order, no request is
    answered 503, and the cursor ends where the fixed counter ends. *)
Theorem live_pool_matches_fixed rs c :
  0 <= c < 3 ->
  exists evs,
    serveAll rs (pool3 true true true c)
    = Ok (evs, pool3 true true true (Fixed.serve (snd <$> rs) c).2)
    /\ proxied evs = Fixed.forwarded (Fixed.serve (snd <$> rs) c).1
    /\ answered evs = [].
Proof.
  revert c. induction rs as [|[elapsed r] rs IH]; intros c Hc.
  - by exists [].
  - cbn [fmap list_fmap snd]. rewrite Fixed_serve_cons. cbn [fst snd].
    destruct (Fixed_handler_step r c Hc) as [Hfwd Hnext].
    destruct (ServeHTTP_pool3 elapsed r c Hc) as (evs & Hcall & Hprox & Hans).
    assert (Hc' : 0 <= (c + 1) mod 3 < 3) by (apply Z.mod_pos_bound; lia).
    destruct (IH _ Hc') as (evs' & Hrest & Hprox' & Hans').
    exists (evs ++ evs'). cbn [serveAll]. rewrite Hcall.
    cbn [mbind result_bind]. rewrite Hrest. cbn [mbind result_bind].
    rewrite Hnext. split; [done|].
    unfold proxied, answered, Fixed.forwarded in *.
    rewrite !omap_app, Hprox, Hprox', Hans, Hans', Hfwd. done.
Qed.

Lemma live_pool_matches_fixed_witness :
  let r := requestSample in
  0 <= 2 < 3
  /\ exists evs,
       serveAll [(5, r); (6, r)] (pool3 true true true 2)
       = Ok (evs, pool3 true true true 1)
       /\ proxied evs = [(Fixed.proxy3, r); (Fixed.proxy1, r)].
Proof.
  assert (H : 0 <= 2 < 3) by lia.
  destruct (live_pool_matches_fixed [(5, requestSample); (6, requestSample)]
              2 H) as (evs & Hcall & Hprox & _).
  split; [done|]. by exists evs.
Defined.

(** ** Requests after a health check *)

Lemma healthCheck_aliveAt http_Get lb k :
  aliveAt (healthCheck http_Get lb).2 k =
  match backends lb !! k with
  | Some b => probeSucceeded (http_Get k (URL b))
  | None => false
  end.
Proof.
  unfold aliveAt. rewrite healthCheck_backends, list_lookup_imap.
  destruct (backends lb !! k) as [b|]; [|done]. cbn.
  by destruct (checkBackend_up (http_Get k (URL b)) b) as [_ ->].
Qed.

(** X18.  Requests follow the last health check.  Right after a cycle, a
    request is forwarded only to a backend whose probe in that cycle
    succeeded, and to exactly one such backend; it is answered 503 only if
    no probe of the cycle succeeded.  What the flags were before the cycle
    plays no part. *)
Theorem requests_follow_last_probe http_Get elapsed r lb :
  cursorInRange lb -> fitsMemory lb ->
  exists evs lb',
    ServeHTTP elapsed r (healthCheck http_Get lb).2 = Ok (evs, lb')
    /\ match forwardedTo evs with
       | [] =>
           answered evs = [(outageBody, StatusServiceUnavailable)]
           /\ Forall (fun ok => ok = false)
                (imap (fun k b => probeSucceeded (http_Get k (URL b)))
                      (backends lb))
       | (k, r') :: more =>
           more = [] /\ r' = r /\ answered evs = []
           /\ exists b, backends lb !! k = Some b
                        /\ probeSucceeded (http_Get k (URL b)) = true
       end.
Proof.
  intros Hc Hm.
  assert (Hlen : length (backends (healthCheck http_Get lb).2)
                 = length (backends lb)).
  { by rewrite healthCheck_backends, length_imap. }
  assert (Hc1 : cursorInRange (healthCheck http_Get lb).2).
  { unfold cursorInRange, len in *. by rewrite healthCheck_current, Hlen. }
  assert (Hm1 : fitsMemory (healthCheck http_Get lb).2).
  { unfold fitsMemory, len in *. by rewrite Hlen. }
  set (lb1 := (healthCheck http_Get lb).2) in *.
  unfold ServeHTTP.
  destruct (getNextBackend_cases lb1 Hc1 Hm1)
    as [[Hdead ->]|[_ (k & Hk & ->)]]; cbn [mbind result_bind].
  - eexists _, _. split; [done|]. cbn. split; [done|].
    apply Forall_lookup. intros j ok. rewrite list_lookup_imap.
    destruct (backends lb !! j) as [b|] eqn:Hb; [|done]. cbn. intros [= <-].
    apply dead_everywhere in Hdead. rewrite Forall_forall in Hdead.
    specialize (Hdead j). unfold lb1 in Hdead.
    rewrite healthCheck_aliveAt, Hb in Hdead. apply Hdead.
    apply elem_of_seq. apply lookup_lt_Some in Hb. fold lb1. lia.
  - pose proof Hk as Hk'. unfold lb1 in Hk'.
    rewrite healthCheck_aliveAt in Hk'.
    unfold deref, afterServing. cbn [backends set_current].
    unfold aliveAt in Hk.
    destruct (backends lb1 !! k) as [b1|] eqn:Hb1; [|done].
    cbn [mbind result_bind]. eexists _, _. split; [done|]. cbn.
    split; [done|]. split; [done|]. split; [done|].
    destruct (backends lb !! k) as [b|]; [|done]. by exists b.
Qed.

Lemma requests_follow_last_probe_witness :
  let lb := pool3 true false true 0 in
  (cursorInRange lb /\ fitsMemory lb)
  /\ exists evs lb',
       ServeHTTP 3 requestSample (healthCheck mixedProbes lb).2 = Ok (evs, lb')
       /\ forwardedTo evs = [(1%nat, requestSample)].
Proof.
  assert (H1 : cursorInRange (pool3 true false true 0))
    by (unfold cursorInRange, len; cbn; lia).
  assert (H2 : fitsMemory (pool3 true false true 0))
    by (unfold fitsMemory, maxBackends, len; cbn; lia).
  split; [done|].
  destruct (requests_follow_last_probe mixedProbes 3 requestSample
              (pool3 true false true 0) H1 H2) as (evs & lb' & Hcall & _).
  exists evs, lb'. split; [done|].
  cbv in Hcall. injection Hcall as <- _. reflexivity.
Defined.

(** * Start-up and the periodic checks *)

(** [main] once both settings are present: it stops if no address parsed;
    otherwise it checks, starts the background tasks and calls the listener,
    and ends as the listener decides. *)
Lemma main_configured url_Parse env http_Get http_ListenAndServe :
  Backend_URLs env <> "" -> PORT env <> "" ->
  let built := NewLoadBalancer url_Parse (splitComma (Backend_URLs env)) in
  let t0 := if dotenvLoaded env then [] else [Printf WarnNoEnvFile] in
  main url_Parse env http_Get http_ListenAndServe =
    if len (backends built.2) =? 0 then
      Exited (t0 ++ [Printf InfoStarting] ++ built.1
                 ++ [Fatal FatalNoValidBackends])
    else
      afterListen (http_ListenAndServe (":" ++ PORT env)%string)
        (listenTrace url_Parse env http_Get)
        (listenPool url_Parse env http_Get).
Proof.
  intros Hurls Hport. cbn zeta. unfold main, listenTrace, listenPool.
  apply String.eqb_neq in Hurls, Hport. rewrite Hurls, Hport.
  destruct (NewLoadBalancer _ _) as [t1 lb]. cbn [fst snd].
  destruct (len (backends lb) =? 0); [done|].
  destruct (healthCheck http_Get lb) as [t2 lb2]. cbn [fst snd].
  unfold afterListen, startHealthChecks. cbn [fst snd].
  by destruct (http_ListenAndServe _) as [|[err|]].
Qed.

(** A [main] that lacks a setting stops at once. *)
Lemma main_unconfigured url_Parse env http_Get http_ListenAndServe :
  Backend_URLs env = "" \/ PORT env = "" ->
  exists l,
    main url_Parse env http_Get http_ListenAndServe =
      Exited ((if dotenvLoaded env then [] else [Printf WarnNoEnvFile])
                ++ [Fatal l])
    /\ (l = FatalNoBackendURLs \/ l = FatalNoPort).
Proof.
  intros Hmissing. unfold main.
  destruct (String.eqb_spec (Backend_URLs env) "") as [Hurls|Hurls].
  { exists FatalNoBackendURLs. split; [done|by left]. }
  destruct Hmissing as [?|Hport]; [done|].
  rewrite Hport. cbn [String.eqb].
  exists FatalNoPort. split; [done|by right].
Qed.

Lemma count_zero_elem p evs e :
  count p evs = 0%nat -> e ∈ evs -> p e = false.
Proof.
  unfold count. induction evs as [|e' evs IH]; intros Hcount He.
  - by apply elem_of_nil in He.
  - cbn [List.filter] in Hcount. destruct (p e') eqn:Hp; [done|].
    apply elem_of_cons in He as [->|He]; [done|by apply IH].
Qed.

(** Up to the listen call: one cycle, run first. *)
Lemma listenTrace_checked url_Parse env http_Get :
  checkedBeforeLaunch url_Parse env http_Get
    (listenTrace url_Parse env http_Get).
Proof.
  unfold checkedBeforeLaunch, listenTrace. cbn zeta.
  set (built := NewLoadBalancer url_Parse (splitComma (Backend_URLs env))).
  set (checked := healthCheck http_Get built.2).
  set (t0 := if dotenvLoaded env then [] else [Printf WarnNoEnvFile]).
  destruct (quiet_counts _ (NewLoadBalancer_quiet url_Parse
                              (splitComma (Backend_URLs env))))
    as [Hbc Hbl]. fold built in Hbc, Hbl.
  destruct (healthCheck_counts http_Get built.2) as [Hcc Hcl].
  fold checked in Hcc, Hcl.
  assert (Ht0 : count isCheckStart t0 = 0%nat /\ count isLaunch t0 = 0%nat)
    by (unfold t0; by destruct (dotenvLoaded env)).
  destruct Ht0 as [Ht0c Ht0l].
  exists (t0 ++ [Printf InfoStarting] ++ built.1),
    [Go (StatsLoop (30 * Second)); Printf (InfoListening (PORT env));
     Printf (InfoConfigured (len (backends checked.2)))].
  split; [by rewrite <- !app_assoc|].
  rewrite !count_app, Ht0c, Hbc, Hcc, Ht0l, Hbl, Hcl. done.
Qed.

Lemma listenTrace_shape url_Parse env http_Get :
  last (listenTrace url_Parse env http_Get)
  = Some (ListenAndServe (":" ++ PORT env))
  /\ probed (listenTrace url_Parse env http_Get)
     = List.filter (parses url_Parse) (splitComma (Backend_URLs env))
  /\ URL <$> backends (listenPool url_Parse env http_Get)
     = List.filter (parses url_Parse) (splitComma (Backend_URLs env)).
Proof.
  unfold listenTrace, listenPool. cbn zeta.
  pose proof (NewLoadBalancer_urls url_Parse (splitComma (Backend_URLs env)))
    as Hgood.
  pose proof (NewLoadBalancer_probed url_Parse
                (splitComma (Backend_URLs env))) as Hquiet.
  split; [|split].
  - rewrite !app_assoc. by rewrite last_app.
  - rewrite !probed_app, Hquiet, healthCheck_probed, Hgood.
    destruct (dotenvLoaded env); cbn; by rewrite app_nil_r.
  - by rewrite healthCheck_urls.
Qed.

(** C5, as the program has it.  An address that does not parse is logged
    and left out: the pool is built from the addresses that parse, in the
    configured order.  Construction is fatal only when none of them parses,
    and then nothing has been probed or launched.  When at least one parses,
    the process goes on with those that do and no others: it probes exactly
    them, calls [http.ListenAndServe] with that pool, and serves with it if
    the listener keeps running; if the listener returns an error the process
    exits on "Server failed to start". *)
Theorem unparsable_addresses_skipped url_Parse env http_Get
    http_ListenAndServe :
  Backend_URLs env <> "" -> PORT env <> "" ->
  let backendURLs := splitComma (Backend_URLs env) in
  let good := List.filter (parses url_Parse) backendURLs in
  let outcome := main url_Parse env http_Get http_ListenAndServe in
  (forall u err, u ∈ backendURLs -> url_Parse u = inr err ->
     Printf (ErrParseURL u err) ∈ (NewLoadBalancer url_Parse backendURLs).1)
  /\ URL <$> backends (NewLoadBalancer url_Parse backendURLs).2 = good
  /\ (good = [] ->
      exists t, outcome = Exited (t ++ [Fatal FatalNoValidBackends])
                /\ probed t = [] /\ count isLaunch t = 0%nat)
  /\ (good <> [] ->
      exists t lb,
        URL <$> backends lb = good /\ probed t = good
        /\ last t = Some (ListenAndServe (":" ++ PORT env))
        /\ outcome =
           match http_ListenAndServe (":" ++ PORT env)%string with
           | KeepsServing => Serving t lb
           | Returns (Some err) =>
               Exited (t ++ [Fatal (FatalServerFailed err)])
           | Returns None => Returned t
           end).
Proof.
  intros Hurls Hport backendURLs good outcome.
  pose proof (NewLoadBalancer_urls url_Parse backendURLs) as Hgood.
  fold good in Hgood.
  split; [intros u err; apply NewLoadBalancer_log|].
  split; [done|].
  unfold outcome.
  rewrite (main_configured url_Parse env http_Get http_ListenAndServe
             Hurls Hport). cbn zeta. fold backendURLs.
  assert (Hlen : len (backends (NewLoadBalancer url_Parse backendURLs).2)
                 = Z.of_nat (length good)).
  { unfold len. by rewrite <- Hgood, length_fmap. }
  rewrite Hlen. split.
  - intros Hnone. rewrite Hnone. cbn [length Z.of_nat Z.eqb].
    destruct (quiet_counts _ (NewLoadBalancer_quiet url_Parse backendURLs))
      as [_ Hbl].
    pose proof (NewLoadBalancer_probed url_Parse backendURLs) as Hquiet.
    eexists. split; [by rewrite !app_assoc|].
    rewrite !probed_app, !count_app, Hquiet, Hbl.
    by destruct (dotenvLoaded env).
  - intros Hsome.
    destruct (Z.eqb_spec (Z.of_nat (length good)) 0) as [Hz|_].
    { destruct good; [done|]. cbn in Hz. lia. }
    destruct (listenTrace_shape url_Parse env http_Get)
      as (Hlast & Hprobed & Hpool).
    exists (listenTrace url_Parse env http_Get),
      (listenPool url_Parse env http_Get).
    done.
Qed.

Lemma unparsable_addresses_skipped_witness :
  (Backend_URLs envSample <> "" /\ PORT envSample <> "")
  /\ Printf (ErrParseURL ":8082"
               ("parse " ++ quoted ":8082" ++ ": missing protocol scheme"))
       ∈ (NewLoadBalancer parseSample ["http://localhost:8081"; ":8082"]).1
  /\ (exists t lb,
        URL <$> backends lb = ["http://localhost:8081"]
        /\ probed t = ["http://localhost:8081"]
        /\ main parseSample envSample allUp listens = Serving t lb)
  /\ (exists t lb,
        URL <$> backends lb = ["http://localhost:8081"]
        /\ main parseSample envSample allUp bindFails
           = Exited (t ++ [Fatal (FatalServerFailed
                      "listen tcp :8080: bind: address already in use")])).
Proof.
  assert (H1 : Backend_URLs envSample <> "") by discriminate.
  assert (H2 : PORT envSample <> "") by discriminate.
  destruct (unparsable_addresses_skipped parseSample envSample allUp listens
              H1 H2) as (Hlog & _ & _ & Hserve).
  destruct (unparsable_addresses_skipped parseSample envSample allUp bindFails
              H1 H2) as (_ & _ & _ & Hfail).
  split; [done|]. split; [|split].
  - apply (Hlog ":8082"); [|done]. right. left.
  - destruct Hserve as (t & lb & Hpool & Hprobed & _ & Hmain); [discriminate|].
    by exists t, lb.
  - destruct Hfail as (t & lb & Hpool & _ & _ & Hmain); [discriminate|].
    by exists t, lb.
Defined.

(** With a listener that starts, the process of [envSample] serves although
    one of its two addresses does not parse. *)
Lemma bad_address_does_not_stop_startup :
  ~ fatalOnUnparsable parseSample envSample allUp listens.
Proof.
  intros Hfatal. destruct Hfatal as [trace Htrace].
  - exists ":8082",
      ("parse " ++ quoted ":8082" ++ ": missing protocol scheme")%string.
    split; [|done]. right. left.
  - vm_compute in Htrace. discriminate Htrace.
Qed.

(** ** The periodic checks *)

Lemma next_instant_ticks d m :
  0 < d -> 0 <= m -> (m + 1) mod d = 0 -> (m + 1) / d = m / d + 1.
Proof.
  intros Hd Hm Hmod.
  pose proof (Z.div_mod (m + 1) d ltac:(lia)) as Hdm.
  rewrite Hmod, Z.add_0_r in Hdm.
  assert (Hq : m / d = (m + 1) / d - 1).
  { symmetry. apply (Z.div_unique m d ((m + 1) / d - 1) (d - 1)); lia. }
  lia.
Qed.

Lemma next_instant_waits d m :
  0 < d -> 0 <= m -> (m + 1) mod d <> 0 -> (m + 1) / d = m / d.
Proof.
  intros Hd Hm Hmod.
  pose proof (Z.div_mod (m + 1) d ltac:(lia)) as Hdm.
  pose proof (Z.mod_pos_bound (m + 1) d Hd) as Hr.
  apply (Z.div_unique m d ((m + 1) / d) ((m + 1) mod d - 1)); lia.
Qed.

Lemma cycles_S d http_Get q lb :
  cycles d http_Get (S q) lb =
  let past := cycles d http_Get q lb in
  let now := Z.of_nat (S q) * d in
  let cycle := healthCheck (http_Get now) past.2 in
  (past.1 ++ [(now, cycle.1)], cycle.2).
Proof.
  cbn [cycles]. destruct (cycles d http_Get q lb) as [past lb1].
  cbn [fst snd]. by destruct (healthCheck _ lb1).
Qed.

(** After [n] nanoseconds the goroutine of [startHealthChecks] has run one
    cycle for every whole interval that has gone by, and nothing else. *)
Lemma history_cycles d http_Get n lb :
  0 < d ->
  history (HealthLoop d) http_Get n lb
  = cycles d http_Get (Z.to_nat (Z.of_nat n / d)) lb.
Proof.
  intros Hd. induction n as [|m IH].
  - by rewrite Z.div_0_l by lia.
  - cbn [history]. rewrite IH. cbn [tickerOf onTick]. unfold ticksAt.
    replace (0 <? Z.of_nat (S m)) with true by (symmetry; apply Z.ltb_lt; lia).
    cbn [andb]. replace (Z.of_nat (S m)) with (Z.of_nat m + 1) by lia.
    pose proof (Z.div_pos (Z.of_nat m) d ltac:(lia) Hd) as Hq.
    destruct (Z.eqb_spec ((Z.of_nat m + 1) mod d) 0) as [Hmod|Hmod].
    + rewrite (next_instant_ticks d (Z.of_nat m)) by lia.
      replace (Z.to_nat (Z.of_nat m / d + 1))
        with (S (Z.to_nat (Z.of_nat m / d))) by lia.
      rewrite cycles_S. cbn zeta.
      destruct (cycles d http_Get _ lb) as [past lb1]. cbn [fst snd].
      replace (Z.of_nat (S (Z.to_nat (Z.of_nat m / d))) * d)
        with (Z.of_nat m + 1).
      * by destruct (healthCheck _ lb1).
      * pose proof (Z.div_mod (Z.of_nat m + 1) d ltac:(lia)) as Hdm.
        rewrite Hmod, Z.add_0_r in Hdm.
        rewrite (next_instant_ticks d (Z.of_nat m)) in Hdm by lia. lia.
    + rewrite (next_instant_waits d (Z.of_nat m)) by lia.
      by destruct (cycles d http_Get _ lb).
Qed.

Lemma cycles_instants d http_Get q lb :
  (cycles d http_Get q lb).1.*1
  = (fun k => (Z.of_nat k + 1) * d) <$> seq 0 q.
Proof.
  induction q as [|q IH]; [done|].
  rewrite cycles_S. cbn zeta. cbn [fst snd].
  rewrite fmap_app, IH, seq_S, fmap_app. cbn. do 2 f_equal. lia.
Qed.

Lemma cycles_whole d http_Get q lb :
  Forall (fun entry => count isCheckStart entry.2 = 1%nat
                       /\ count isLaunch entry.2 = 0%nat)
         (cycles d http_Get q lb).1.
Proof.
  induction q as [|q IH]; [constructor|].
  rewrite cycles_S. cbn zeta. cbn [fst snd].
  apply Forall_app. split; [done|]. constructor; [|constructor].
  apply healthCheck_counts.
Qed.

(** C9, as the program has it.  The first health check is [main]'s, not
    [startHealthChecks]'s.  [startHealthChecks] runs no check and leaves the
    pool alone: it logs, makes the ticker of the given interval and starts
    the goroutine that waits on it.  Whenever [main] calls the listener it
    has run exactly one health-check cycle, synchronously, on the pool fresh
    from [NewLoadBalancer], before any timer, goroutine or listener existed,
    and [startHealthChecks] came right after it; so the pool a request meets
    has been checked.  A [main] that stops on its configuration never
    launches anything.  Only from then on does the cycle repeat, on the
    fixed period: counted from the making of the ticker, the goroutine runs
    nothing during the first interval, and one whole cycle at each of the
    instants [interval], [2 interval], [3 interval], ..., each on the pool
    the cycle before left. *)
Theorem first_check_precedes_ticker url_Parse env http_Get
    http_ListenAndServe interval probes n lb :
  0 < interval ->
  (startHealthChecks interval lb =
     ([Printf (InfoStartingChecks interval); NewTicker interval;
       Go (HealthLoop interval)], lb)
   /\ count isCheckStart (startHealthChecks interval lb).1 = 0%nat)
  /\ match main url_Parse env http_Get http_ListenAndServe with
     | Serving t lb' =>
         checkedBeforeLaunch url_Parse env http_Get t
         /\ lb' = listenPool url_Parse env http_Get
     | Returned t => checkedBeforeLaunch url_Parse env http_Get t
     | Exited t =>
         (count isLaunch t = 0%nat /\ count isCheckStart t = 0%nat)
         \/ exists t' err,
              t = t' ++ [Fatal (FatalServerFailed err)]
              /\ checkedBeforeLaunch url_Parse env http_Get t'
     end
  /\ (let ran := history (HealthLoop interval) probes n lb in
      ran.1.*1 = (fun k => (Z.of_nat k + 1) * interval)
                   <$> seq 0 (Z.to_nat (Z.of_nat n / interval))
      /\ Forall (fun entry => count isCheckStart entry.2 = 1%nat
                              /\ count isLaunch entry.2 = 0%nat) ran.1
      /\ ran = cycles interval probes (Z.to_nat (Z.of_nat n / interval)) lb
      /\ (Z.of_nat n < interval -> ran = ([], lb))).
Proof.
  intros Hd. split; [done|]. split.
  - assert (Ht0 : forall b : bool,
              let t0 := if b then [] else [Printf WarnNoEnvFile] in
              count isLaunch t0 = 0%nat /\ count isCheckStart t0 = 0%nat)
      by by intros [].
    destruct (String.eqb_spec (Backend_URLs env) "") as [Hurls|Hurls].
    { destruct (main_unconfigured url_Parse env http_Get http_ListenAndServe
                  (or_introl Hurls)) as (l & -> & Hl).
      left. destruct (Ht0 (dotenvLoaded env)) as [Hl0 Hc0].
      rewrite !count_app, Hl0, Hc0. by destruct Hl as [->| ->]. }
    destruct (String.eqb_spec (PORT env) "") as [Hport|Hport].
    { destruct (main_unconfigured url_Parse env http_Get http_ListenAndServe
                  (or_intror Hport)) as (l & -> & Hl).
      left. destruct (Ht0 (dotenvLoaded env)) as [Hl0 Hc0].
      rewrite !count_app, Hl0, Hc0. by destruct Hl as [->| ->]. }
    rewrite (main_configured url_Parse env http_Get http_ListenAndServe
               Hurls Hport). cbn zeta.
    destruct (len (backends _) =? 0).
    + left.
      destruct (quiet_counts _ (NewLoadBalancer_quiet url_Parse
                                  (splitComma (Backend_URLs env))))
        as [Hbc Hbl].
      destruct (Ht0 (dotenvLoaded env)) as [Hl0 Hc0].
      by rewrite !count_app, Hl0, Hc0, Hbc, Hbl.
    + pose proof (listenTrace_checked url_Parse env http_Get) as Hchecked.
      destruct (http_ListenAndServe _) as [|[err|]]; cbn [afterListen].
      * done.
      * right. by eexists _, _.
      * done.
  - cbn zeta. rewrite (history_cycles interval probes n lb Hd).
    split; [apply cycles_instants|]. split; [apply cycles_whole|].
    split; [done|]. intros Hn.
    by rewrite Z.div_small by lia.
Qed.

Lemma first_check_precedes_ticker_witness :
  let lb := pool3 true false true 0 in
  let probes := fun _ : Duration => mixedProbes in
  0 < 3
  /\ checkedBeforeLaunch parseSample envSample allUp
       (listenTrace parseSample envSample allUp)
  /\ (history (HealthLoop 3) probes 10 lb).1.*1 = [3; 6; 9]
  /\ history (HealthLoop 3) probes 2 lb = ([], lb).
Proof.
  assert (H : 0 < 3) by lia.
  destruct (first_check_precedes_ticker parseSample envSample allUp listens
              3 (fun _ => mixedProbes) 10 (pool3 true false true 0) H)
    as (_ & [Hmain _] & Hinstants & _).
  destruct (first_check_precedes_ticker parseSample envSample allUp listens
              3 (fun _ => mixedProbes) 2 (pool3 true false true 0) H)
    as (_ & _ & _ & _ & _ & Hquiet).
  split; [done|]. split; [exact Hmain|]. split; [exact Hinstants|].
  apply Hquiet. lia.
Defined.

(** ** How [main] ends *)

Lemma some_address_parses url_Parse (urls : list string) :
  (exists u, u ∈ urls /\ parses url_Parse u = true)
  <-> List.filter (parses url_Parse) urls <> [].
Proof.
  split.
  - intros (u & Hu & Hparse) Hnone.
    assert (Hin : In u (List.filter (parses url_Parse) urls)).
    { apply List.filter_In. split; [by apply list_elem_of_In|done]. }
    by rewrite Hnone in Hin.
  - destruct (List.filter (parses url_Parse) urls) as [|u good] eqn:Hfilter;
      [done|]. intros _. exists u.
    assert (Hin : In u (List.filter (parses url_Parse) urls))
      by (rewrite Hfilter; by left).
    apply List.filter_In in Hin as [Hin Hparse].
    split; [by apply list_elem_of_In|done].
Qed.

Lemma fresh_pool_size url_Parse (urls : list string) :
  len (backends (NewLoadBalancer url_Parse urls).2)
  = Z.of_nat (length (List.filter (parses url_Parse) urls)).
Proof.
  unfold len. by rewrite <- (NewLoadBalancer_urls url_Parse urls), length_fmap.
Qed.

(** X14.  When [main] is serving (the listener was called and has not
    returned), the pool it serves with is not empty and its cursor is 0, in
    range; its backends are the configured addresses that parse, in order;
    each has been probed exactly once, and its flag is what that probe
    decided; the listen call was the last thing [main] did.  When [main]
    exits on its configuration (a missing setting, no address that parses),
    the trace ends on that fatal line and nothing was probed or launched.
    When it exits because the listener returned an error, the trace ends on
    "Server failed to start" right after the listen call, and the addresses
    that parse had been probed once each. *)
Theorem main_serves_checked_pool url_Parse env http_Get http_ListenAndServe :
  let good :=
    List.filter (parses url_Parse) (splitComma (Backend_URLs env)) in
  let listening t :=
    probed t = good /\ good <> []
    /\ last t = Some (ListenAndServe (":" ++ PORT env)) in
  match main url_Parse env http_Get http_ListenAndServe with
  | Serving t lb =>
      listening t
      /\ backends lb <> [] /\ current lb = 0 /\ cursorInRange lb
      /\ URL <$> backends lb = good
      /\ Alive <$> backends lb
         = imap (fun k u => probeSucceeded (http_Get k u)) good
  | Returned t => listening t
  | Exited t =>
      exists t' l,
        t = t' ++ [Fatal l]
        /\ match l with
           | FatalServerFailed _ => listening t'
           | _ => probed t = [] /\ count isLaunch t = 0%nat
           end
  end.
Proof.
  intros good listening.
  assert (Ht0 : forall b : bool,
            let t0 := if b then [] else [Printf WarnNoEnvFile] in
            count isLaunch t0 = 0%nat /\ probed t0 = [])
    by by intros [].
  destruct (Ht0 (dotenvLoaded env)) as [Hl0 Hp0].
  destruct (String.eqb_spec (Backend_URLs env) "") as [Hurls|Hurls].
  { destruct (main_unconfigured url_Parse env http_Get http_ListenAndServe
                (or_introl Hurls)) as (l & -> & Hl).
    eexists _, l. split; [done|].
    rewrite probed_app, count_app, Hl0, Hp0. by destruct Hl as [->| ->]. }
  destruct (String.eqb_spec (PORT env) "") as [Hport|Hport].
  { destruct (main_unconfigured url_Parse env http_Get http_ListenAndServe
                (or_intror Hport)) as (l & -> & Hl).
    eexists _, l. split; [done|].
    rewrite probed_app, count_app, Hl0, Hp0. by destruct Hl as [->| ->]. }
  rewrite (main_configured url_Parse env http_Get http_ListenAndServe
             Hurls Hport). cbn zeta.
  rewrite fresh_pool_size. fold good.
  destruct (Z.eqb_spec (Z.of_nat (length good)) 0) as [Hz|Hnz].
  - destruct (quiet_counts _ (NewLoadBalancer_quiet url_Parse
                                (splitComma (Backend_URLs env))))
      as [_ Hbl].
    pose proof (NewLoadBalancer_probed url_Parse
                  (splitComma (Backend_URLs env))) as Hquiet.
    eexists _, FatalNoValidBackends. split; [by rewrite !app_assoc|].
    rewrite !probed_app, !count_app, Hquiet, Hbl, Hl0, Hp0.
    done.
  - destruct (listenTrace_shape url_Parse env http_Get)
      as (Hlast & Hprobed & Hpool). fold good in Hprobed, Hpool.
    assert (Hgood : good <> []) by (intros Hnil; by rewrite Hnil in Hnz).
    assert (Hlistening : listening (listenTrace url_Parse env http_Get))
      by done.
    destruct (http_ListenAndServe _) as [|[err|]]; cbn [afterListen];
      [|by eexists _, _|done].
    split; [done|].
    assert (Hcur : current (listenPool url_Parse env http_Get) = 0).
    { unfold listenPool. rewrite healthCheck_current.
      unfold NewLoadBalancer. by destruct (foldl _ _ _). }
    assert (Hlen : length (backends (listenPool url_Parse env http_Get))
                   = length good).
    { by rewrite <- Hpool, length_fmap. }
    split; [|split; [done|split; [|split; [done|]]]].
    + intros Hnil. rewrite Hnil in Hlen. cbn in Hlen. lia.
    + unfold cursorInRange, len. rewrite Hcur, Hlen. lia.
    + unfold listenPool. rewrite healthCheck_flags.
      by rewrite (NewLoadBalancer_urls url_Parse).
Qed.

Lemma listen_in_trace r t lb addr :
  last t = Some (ListenAndServe addr) ->
  ListenAndServe addr ∈ traceOf (afterListen r t lb).
Proof.
  intros Hlast.
  assert (Hin : ListenAndServe addr ∈ t).
  { apply last_Some in Hlast as [t' ->]. apply elem_of_app. right. left. }
  destruct r as [|[err|]]; cbn; [done| |done].
  apply elem_of_app. by left.
Qed.

(** X15.  Provided the probes of the first health check return, [main]
    calls [http.ListenAndServe] exactly when both settings are present and
    at least one of the comma-separated addresses parses, whatever the
    probes answer; and it ends up serving exactly when, in addition, the
    listener does not return. *)
Theorem main_listens_iff url_Parse env http_Get http_ListenAndServe :
  let configured :=
    Backend_URLs env <> "" /\ PORT env <> ""
    /\ exists u, u ∈ splitComma (Backend_URLs env)
                 /\ parses url_Parse u = true in
  let outcome := main url_Parse env http_Get http_ListenAndServe in
  ((exists addr, ListenAndServe addr ∈ traceOf outcome) <-> configured)
  /\ ((exists t lb, outcome = Serving t lb)
      <-> configured
          /\ http_ListenAndServe (":" ++ PORT env)%string = KeepsServing).
Proof.
  intros configured outcome.
  assert (Hquiet : forall t, count isLaunch t = 0%nat ->
            ~ exists addr, ListenAndServe addr ∈ t).
  { intros t Hcount (addr & Hin).
    by pose proof (count_zero_elem _ _ _ Hcount Hin). }
  assert (Ht0 : forall (b : bool) l,
            count isLaunch ((if b then [] else [Printf WarnNoEnvFile])
                              ++ [Fatal l]) = 0%nat)
    by by intros [].
  assert (Hmissing : Backend_URLs env = "" \/ PORT env = "" ->
            ~ configured /\ ~ (exists addr, ListenAndServe addr ∈ traceOf outcome)
            /\ ~ (exists t lb, outcome = Serving t lb)).
  { intros Hmiss. unfold outcome.
    destruct (main_unconfigured url_Parse env http_Get http_ListenAndServe
                Hmiss) as (l & -> & _).
    split; [|split].
    - intros (Hurls & Hport & _). by destruct Hmiss.
    - cbn [traceOf]. apply Hquiet, Ht0.
    - by intros (t & lb & ?). }
  destruct (String.eqb_spec (Backend_URLs env) "") as [Hurls|Hurls].
  { destruct (Hmissing (or_introl Hurls)) as (Hc & Hl & Hs).
    split; split; try done. by intros [? _]. }
  destruct (String.eqb_spec (PORT env) "") as [Hport|Hport].
  { destruct (Hmissing (or_intror Hport)) as (Hc & Hl & Hs).
    split; split; try done. by intros [? _]. }
  clear Hmissing. unfold outcome.
  rewrite (main_configured url_Parse env http_Get http_ListenAndServe
             Hurls Hport). cbn zeta. rewrite fresh_pool_size.
  pose proof (some_address_parses url_Parse (splitComma (Backend_URLs env)))
    as Hsome.
  set (good := List.filter (parses url_Parse) (splitComma (Backend_URLs env)))
    in *.
  destruct (Z.eqb_spec (Z.of_nat (length good)) 0) as [Hz|Hnz].
  - assert (Hnone : ~ configured).
    { intros (_ & _ & Hu). apply Hsome in Hu.
      destruct good; [done|]. cbn in Hz. lia. }
    split; split; try done.
    + intros Hl. exfalso. revert Hl. cbn [traceOf]. apply Hquiet.
      destruct (quiet_counts _ (NewLoadBalancer_quiet url_Parse
                                  (splitComma (Backend_URLs env))))
        as [_ Hbl].
      rewrite !count_app, Hbl. by destruct (dotenvLoaded env).
    + by intros (t & lb & ?).
    + by intros [? _].
  - assert (Hconf : configured).
    { split; [done|]. split; [done|]. apply Hsome.
      intros Hnil. by rewrite Hnil in Hnz. }
    destruct (listenTrace_shape url_Parse env http_Get) as (Hlast & _ & _).
    split; split; try done.
    + intros _. eexists. by apply listen_in_trace.
    + intros (t & lb & Hserving). split; [done|].
      by destruct (http_ListenAndServe _) as [|[err|]].
    + intros [_ ->]. cbn. by eexists _, _.
Qed.
